(** * VizArch: the lab store, the cost display, the component palette
      and the scoring engine

    A shallow embedding of the front end's state container
    ([store/labStore.ts]), of the two places that print the monthly dollar
    estimate ([StatusBar], [ResultsPanel]), of the palette's table of
    component kinds ([ComponentPalette.tsx]) and of the type declarations
    they share ([types/infrastructure.ts]).  The scoring engine runs in the
    back end; it is modelled from its specification in [Module Engine]. *)

From Stdlib Require Import ZArith QArith Qround Qminmax String Ascii List.
From stdpp Require Import base tactics option list strings pretty gmap.

Local Close Scope Q_scope.
Local Open Scope string_scope.
Local Open Scope list_scope.

(** ** [types/infrastructure.ts] *)

(** The string-literal union [ComponentType].  At run time a component's
    [type] is a plain string (callers cast with [as any]), so the union is
    kept as the list of its members. *)
Definition ComponentType : list string :=
  [ "lambda"; "s3"; "dynamodb"; "cloudfront"; "api_gateway"; "amplify";
    "rds"; "elasticache"; "sqs"; "sns"; "load_balancer";
    "vpc"; "subnet"; "security_group"; "nat_gateway"; "internet_gateway";
    "compute_node"; "database"; "cache"; "message_queue" ].

Inductive SimulationGoal := low_latency | high_availability | low_cost.

Record Position := { x : Q; y : Q; z : Q }.

Record InfrastructureComponent := {
  id : string;
  type : string;
  configuration : list (string * string);
  position : option Position
}.

(** [cost_index] and [scalability_score] are integers in the engine's
    output contract; on integers of that size the JavaScript arithmetic
    used below is exact. *)
Record SimulationResult := {
  estimated_latency_ms : Q;
  scalability_score : Z;
  cost_index : Z;
  explanation : string
}.

(** ** [store/labStore.ts] *)

Record HistoryEntry := {
  result : SimulationResult;
  timestamp : Z;
  componentCount : nat
}.

Record LabStore := {
  components : list InfrastructureComponent;
  connections : list (string * string);
  goal : SimulationGoal;
  simulationResult : option SimulationResult;
  resultsHistory : list HistoryEntry;
  isSimulating : bool;
  selectedComponentId : option string;
  isDraggingComponent : bool;
  useCase : string
}.

(** zustand's [set] merges the returned partial object into the state; one
    setter per field that some action writes. *)
Definition set_components (v : list InfrastructureComponent) (s : LabStore) :=
  {| components := v; connections := connections s; goal := goal s;
     simulationResult := simulationResult s;
     resultsHistory := resultsHistory s; isSimulating := isSimulating s;
     selectedComponentId := selectedComponentId s;
     isDraggingComponent := isDraggingComponent s; useCase := useCase s |}.

Definition set_connections (v : list (string * string)) (s : LabStore) :=
  {| components := components s; connections := v; goal := goal s;
     simulationResult := simulationResult s;
     resultsHistory := resultsHistory s; isSimulating := isSimulating s;
     selectedComponentId := selectedComponentId s;
     isDraggingComponent := isDraggingComponent s; useCase := useCase s |}.

Definition set_goal (v : SimulationGoal) (s : LabStore) :=
  {| components := components s; connections := connections s; goal := v;
     simulationResult := simulationResult s;
     resultsHistory := resultsHistory s; isSimulating := isSimulating s;
     selectedComponentId := selectedComponentId s;
     isDraggingComponent := isDraggingComponent s; useCase := useCase s |}.

Definition set_simulationResult (v : option SimulationResult) (s : LabStore) :=
  {| components := components s; connections := connections s;
     goal := goal s; simulationResult := v;
     resultsHistory := resultsHistory s; isSimulating := isSimulating s;
     selectedComponentId := selectedComponentId s;
     isDraggingComponent := isDraggingComponent s; useCase := useCase s |}.

Definition set_resultsHistory (v : list HistoryEntry) (s : LabStore) :=
  {| components := components s; connections := connections s;
     goal := goal s; simulationResult := simulationResult s;
     resultsHistory := v; isSimulating := isSimulating s;
     selectedComponentId := selectedComponentId s;
     isDraggingComponent := isDraggingComponent s; useCase := useCase s |}.

Definition set_isSimulating (v : bool) (s : LabStore) :=
  {| components := components s; connections := connections s;
     goal := goal s; simulationResult := simulationResult s;
     resultsHistory := resultsHistory s; isSimulating := v;
     selectedComponentId := selectedComponentId s;
     isDraggingComponent := isDraggingComponent s; useCase := useCase s |}.

Definition set_selectedComponentId (v : option string) (s : LabStore) :=
  {| components := components s; connections := connections s;
     goal := goal s; simulationResult := simulationResult s;
     resultsHistory := resultsHistory s; isSimulating := isSimulating s;
     selectedComponentId := v;
     isDraggingComponent := isDraggingComponent s; useCase := useCase s |}.

Definition set_isDraggingComponent (v : bool) (s : LabStore) :=
  {| components := components s; connections := connections s;
     goal := goal s; simulationResult := simulationResult s;
     resultsHistory := resultsHistory s; isSimulating := isSimulating s;
     selectedComponentId := selectedComponentId s;
     isDraggingComponent := v; useCase := useCase s |}.

Definition set_useCase (v : string) (s : LabStore) :=
  {| components := components s; connections := connections s;
     goal := goal s; simulationResult := simulationResult s;
     resultsHistory := resultsHistory s; isSimulating := isSimulating s;
     selectedComponentId := selectedComponentId s;
     isDraggingComponent := isDraggingComponent s; useCase := v |}.

(** The store as [create] builds it. *)
Definition initialStore : LabStore :=
  {| components := []; connections := []; goal := low_latency;
     simulationResult := None; resultsHistory := []; isSimulating := false;
     selectedComponentId := None; isDraggingComponent := false;
     useCase := "" |}.

(** The module keeps [componentCounter] next to the store.  It is a
    JavaScript number that only ever takes the values 0, 1, 2, ..., which a
    number holds exactly up to 2^53; it is modelled as a natural number. *)
Record Lab := {
  componentCounter : N;
  store : LabStore
}.

Definition initialLab : Lab :=
  {| componentCounter := 0; store := initialStore |}.

(** [Array.prototype.some]. *)
Definition some {A} (P : A → Prop) `{∀ a, Decision (P a)} (l : list A) : bool :=
  bool_decide (Exists P l).

(** JavaScript's truthiness of a [string | null]: [null] and the empty
    string are falsy. *)
Definition truthy (o : option string) : bool :=
  match o with
  | Some s => bool_decide (s ≠ "")
  | None => false
  end.

(** The template literal [`${type}-${Date.now()}-${componentCounter}`]. *)
Definition component_id (ty : string) (now : Z) (counter : N) : string :=
  ty +:+ "-" +:+ pretty now +:+ "-" +:+ pretty counter.

(** [addComponent]; [now] is the value [Date.now()] returns. *)
Definition addComponent (ty : string) (pos : Position) (now : Z) (l : Lab) : Lab :=
  let counter := (componentCounter l + 1)%N in
  {| componentCounter := counter;
     store :=
       set_components
         (components (store l) ++
          [ {| id := component_id ty now counter; type := ty;
               configuration := []; position := Some pos |} ])
         (store l) |}.

Definition removeComponent (rid : string) (s : LabStore) : LabStore :=
  set_components (filter (λ c, id c ≠ rid) (components s))
    (set_connections
       (filter (λ p, p.1 ≠ rid ∧ p.2 ≠ rid) (connections s))
       (set_selectedComponentId
          (if bool_decide (selectedComponentId s = Some rid) then None
           else selectedComponentId s)
          s)).

Definition updateComponentPosition (uid : string) (pos : Position)
    (s : LabStore) : LabStore :=
  set_components
    ((λ c, if bool_decide (id c = uid)
           then {| id := id c; type := type c;
                   configuration := configuration c;
                   position := Some pos |}
           else c)
     <$> components s)
    s.

Definition addConnection (fromId toId : string) (s : LabStore) : LabStore :=
  let exists_ := some (λ p, p.1 = fromId ∧ p.2 = toId) (connections s) in
  if exists_ then s
  else set_connections (connections s ++ [(fromId, toId)]) s.

Definition removeConnection (fromId toId : string) (s : LabStore) : LabStore :=
  set_connections
    (filter (λ p, ¬ (p.1 = fromId ∧ p.2 = toId)) (connections s)) s.

Definition setGoal (g : SimulationGoal) (s : LabStore) : LabStore :=
  set_goal g s.

(** [setSimulationResult]; an object is truthy, [null] is not. *)
Definition setSimulationResult (r : option SimulationResult) (now : Z)
    (s : LabStore) : LabStore :=
  match r with
  | Some res =>
      let newHistory :=
        take 5 ({| result := res; timestamp := now;
                   componentCount := length (components s) |}
                :: resultsHistory s) in
      set_simulationResult r (set_resultsHistory newHistory s)
  | None => set_simulationResult r s
  end.

Definition setIsSimulating (b : bool) (s : LabStore) : LabStore :=
  set_isSimulating b s.

Definition setSelectedComponentId (o : option string) (s : LabStore) : LabStore :=
  set_selectedComponentId o s.

Definition setIsDraggingComponent (b : bool) (s : LabStore) : LabStore :=
  set_isDraggingComponent b s.

Definition setUseCase (u : string) (s : LabStore) : LabStore :=
  set_useCase u s.

Definition handleComponentClick (cid : string) (s : LabStore) : LabStore :=
  match selectedComponentId s with
  | None => set_selectedComponentId (Some cid) s
  | Some fromId =>
      if negb (truthy (Some fromId)) then
        set_selectedComponentId (Some cid) s
      else if bool_decide (fromId = cid) then
        set_selectedComponentId None s
      else
        let toId := cid in
        let exists_ :=
          some (λ p, (p.1 = fromId ∧ p.2 = toId) ∨ (p.1 = toId ∧ p.2 = fromId))
               (connections s) in
        if negb exists_ then
          set_connections (connections s ++ [(fromId, toId)])
            (set_selectedComponentId None s)
        else set_selectedComponentId None s
  end.

Definition clearLab (s : LabStore) : LabStore :=
  set_components []
    (set_connections []
       (set_simulationResult None (set_selectedComponentId None s))).

(** The calls a client can make on the store.  [Date.now()] is an input of
    the two actions that read the clock. *)
Inductive Action :=
| AddComponent (ty : string) (pos : Position) (now : Z)
| RemoveComponent (rid : string)
| UpdateComponentPosition (uid : string) (pos : Position)
| AddConnection (fromId toId : string)
| RemoveConnection (fromId toId : string)
| SetGoal (g : SimulationGoal)
| SetSimulationResult (r : option SimulationResult) (now : Z)
| SetIsSimulating (b : bool)
| SetSelectedComponentId (o : option string)
| SetIsDraggingComponent (b : bool)
| SetUseCase (u : string)
| HandleComponentClick (cid : string)
| ClearLab.

Definition on_store (f : LabStore → LabStore) (l : Lab) : Lab :=
  {| componentCounter := componentCounter l; store := f (store l) |}.

Definition step (a : Action) (l : Lab) : Lab :=
  match a with
  | AddComponent ty pos now => addComponent ty pos now l
  | RemoveComponent rid => on_store (removeComponent rid) l
  | UpdateComponentPosition uid pos =>
      on_store (updateComponentPosition uid pos) l
  | AddConnection f t => on_store (addConnection f t) l
  | RemoveConnection f t => on_store (removeConnection f t) l
  | SetGoal g => on_store (setGoal g) l
  | SetSimulationResult r now => on_store (setSimulationResult r now) l
  | SetIsSimulating b => on_store (setIsSimulating b) l
  | SetSelectedComponentId o => on_store (setSelectedComponentId o) l
  | SetIsDraggingComponent b => on_store (setIsDraggingComponent b) l
  | SetUseCase u => on_store (setUseCase u) l
  | HandleComponentClick cid => on_store (handleComponentClick cid) l
  | ClearLab => on_store clearLab l
  end.

(** A run: the actions are applied from left to right. *)
Definition run (acts : list Action) (l : Lab) : Lab :=
  foldl (λ l a, step a l) l acts.

Definition ids (s : LabStore) : list string := id <$> components s.


(** *** Predicates on store states *)

(** Every connection endpoint is the id of a component in the store. *)
Definition connections_resolve (s : LabStore) : Prop :=
  ∀ p, p ∈ connections s → p.1 ∈ ids s ∧ p.2 ∈ ids s.

(** The selection, when there is one, is the id of a component. *)
Definition selection_resolves (s : LabStore) : Prop :=
  ∀ sel, selectedComponentId s = Some sel → sel ∈ ids s.

(** The ids a caller passes name components that are in the store. *)
Definition names_components (a : Action) (s : LabStore) : Prop :=
  match a with
  | AddConnection fromId toId => fromId ∈ ids s ∧ toId ∈ ids s
  | HandleComponentClick cid => cid ∈ ids s
  | SetSelectedComponentId (Some sel) => sel ∈ ids s
  | _ => True
  end.

(** A run in which every call names components of the store it is made on. *)
Fixpoint well_called (acts : list Action) (l : Lab) : Prop :=
  match acts with
  | [] => True
  | a :: acts' => names_components a (store l) ∧ well_called acts' (step a l)
  end.

(** Every id in the store was built by [addComponent] from a counter value
    that has been used already. *)
Definition ids_issued (l : Lab) : Prop :=
  ∀ i, i ∈ ids (store l) →
    ∃ ty now k, i = component_id ty now k ∧ (k ≤ componentCounter l)%N.

(** No character of the string is a dash. *)
Fixpoint dash_free (s : string) : Prop :=
  match s with
  | "" => True
  | String c r => c ≠ "-"%char ∧ dash_free r
  end.

(** ** The monthly dollar estimate: [StatusBar] and [ResultsPanel] *)

(** [Math.round]: the nearest integer, a tie going up. *)
Definition Math_round (q : Q) : Z := Qfloor (q + 0.5)%Q.

(** A number is falsy when it is zero. *)
Definition truthy_number (n : Z) : bool := bool_decide (n ≠ 0%Z).

(** [estimatedCost] of [StatusBar]. *)
Definition estimatedCost (simulationResult : option SimulationResult) : string :=
  match simulationResult with
  | Some r =>
      if truthy_number (cost_index r)
      then "$" +:+ pretty (Math_round (inject_Z (cost_index r) * 2.5)%Q) +:+ "/mo"
      else "Run simulation"
  | None => "Run simulation"
  end.

(** The line under the cost bar of [ResultsPanel]; [None] when the panel
    does not render it (nothing to show, or the spinner is up). *)
Definition ResultsPanel_cost (simulationResult : option SimulationResult)
    (isSimulating : bool) : option string :=
  match simulationResult with
  | None => None
  | Some r =>
      if isSimulating then None
      else Some ("~$" +:+ pretty (Math_round (inject_Z (cost_index r) * 2.5)%Q)
                 +:+ "/month")
  end.

(** ** [ComponentPalette.tsx] *)

Module ComponentPalette.

Record ComponentInfo := {
  type : string;
  icon : string;
  label : string;
  color : string;
  cost : string;
  latency : string;
  description : string
}.

Definition row (ty ic lb cl cs lt ds : string) : ComponentInfo :=
  {| type := ty; icon := ic; label := lb; color := cl; cost := cs;
     latency := lt; description := ds |}.

Definition componentTypes : list ComponentInfo :=
  [ row "lambda" "Zap" "Lambda" "#ff9500" "~$5/mo" "15ms" "Serverless compute";
    row "s3" "Box" "S3" "#569a31" "~$3/mo" "10ms" "Object storage";
    row "dynamodb" "Database" "DynamoDB" "#4053d6" "~$8/mo" "8ms" "NoSQL database";
    row "cloudfront" "Globe" "CloudFront" "#8c4fff" "~$10/mo" "5ms" "CDN service";
    row "api_gateway" "Workflow" "API Gateway" "#ff4f81" "~$5/mo" "12ms" "API management";
    row "amplify" "Cloud" "Amplify" "#ff9900" "~$15/mo" "8ms" "Full-stack hosting";
    row "rds" "Database" "RDS" "#3b48cc" "~$120/mo" "20ms" "Relational database";
    row "elasticache" "HardDrive" "ElastiCache" "#d32f2f" "~$50/mo" "3ms" "In-memory cache";
    row "sqs" "MessageSquare" "SQS" "#d13212" "~$3/mo" "10ms" "Message queue";
    row "sns" "Radio" "SNS" "#ff4785" "~$3/mo" "8ms" "Notification service";
    row "load_balancer" "Layers" "ALB" "#ff6b35" "~$20/mo" "5ms" "Load balancing";
    row "compute_node" "Server" "EC2" "#4ecdc4" "~$40/mo" "2ms" "Virtual server";
    row "vpc" "Box" "VPC" "#2e7d32" "Free" "0ms" "Virtual network";
    row "subnet" "Layers" "Subnet" "#558b2f" "Free" "0ms" "Network segment";
    row "security_group" "Server" "SecGroup" "#ffa726" "Free" "0ms" "Firewall rules";
    row "nat_gateway" "Globe" "NAT GW" "#5c6bc0" "~$35/mo" "5ms" "Outbound gateway";
    row "internet_gateway" "Globe" "IGW" "#26a69a" "Free" "3ms" "Internet gateway" ].

(** The kinds the palette offers, in table order. *)
Definition kinds : list string := map type componentTypes.

End ComponentPalette.

(** ** The simulation engine

    The engine is the back end's; what follows is written from sections 3
    and 4 of the specification. *)

Module Engine.

(** Modelled from the spec: the categories of a profile. *)
Inductive Category :=
  compute | storage | database | cache | cdn | networking | messaging
| security | platform | generic.

(** Modelled from the spec: a catalog entry. *)
Record ComponentProfile := {
  kind : string;
  base_latency_ms : Q;
  base_monthly_cost : Q;
  category : Category;
  scalability_ceiling : option Z;
  latency_reduction_factor : option Q
}.

(** Modelled from the spec: a node of the caller's graph; [component_kind]
    is its [kind]. *)
Record GraphComponent := {
  id : string;
  component_kind : string;
  configuration : list (string * string)
}.

(** Modelled from the spec: the graph. *)
Record Graph := {
  components : list GraphComponent;
  connections : list (string * string)
}.

(** Modelled from the spec: the two validation failures. *)
Inductive Error := UnknownComponentKind | DanglingConnection.

(** Modelled from the spec: the three numbers of a report. *)
Record Scores := {
  latency_ms : Q;
  scalability_score : Z;
  cost_index : Z
}.

(** Modelled from the spec: the report, the numbers and the text. *)
Record ScoreReport := {
  scores : Scores;
  explanation : string
}.

(** Modelled from the spec: the numbers and the two kind tests that the
    specification leaves to calibration. *)
Record Calibration := {
  serverless : ComponentProfile → bool;
  resilient : ComponentProfile → bool;
  free_components : nat;
  component_penalty : Z;
  free_connections : nat;
  connection_penalty : Z;
  resilience_bonus : Z;
  expensive_threshold : Q;
  cost_scale : Q
}.

Section Scoring.

Context (catalog : list ComponentProfile) (cal : Calibration).
Context (format : Scores → SimulationGoal → Graph → string).

(** Modelled from the spec: the catalog's [lookup(kind)], absent from the
    sources; the first entry of that kind, none for an unknown kind. *)
Definition lookup (k : string) : option ComponentProfile :=
  snd <$> list_find (λ p, kind p = k) catalog.

(** Modelled from the spec: the validation pass of [simulate], absent from
    the sources.  Kinds are resolved first, then connection endpoints; on
    success the profiles of the components are returned in graph order. *)
Definition validate (g : Graph) : Error + list ComponentProfile :=
  match mapM (λ c, lookup (component_kind c)) (components g) with
  | None => inl UnknownComponentKind
  | Some profiles =>
      if bool_decide
           (Forall (λ p, p.1 ∈ map id (components g)
                         ∧ p.2 ∈ map id (components g))
                   (connections g))
      then inr profiles
      else inl DanglingConnection
  end.

(** Modelled from the spec: a repeated connection counts once. *)
Definition distinct_connections (g : Graph) : list (string * string) :=
  remove_dups (connections g).

(** Modelled from the spec: a hop is a connection between two different
    components; a self-loop is a hop of length zero. *)
Definition hops (g : Graph) : nat :=
  length (filter (λ p, p.1 ≠ p.2) (distinct_connections g)).

(** Modelled from the spec: the sum of the base latencies. *)
Definition Qsum (l : list Q) : Q := foldr Qplus 0%Q l.

(** Modelled from the spec: a component pays the cold-start penalty when
    its category is compute and its kind is serverless. *)
Definition cold_start (p : ComponentProfile) : bool :=
  match category p with
  | compute => serverless cal p
  | _ => false
  end.

(** Modelled from the spec: the reducers present in the graph, applied in
    catalog order, each cutting the running total by its factor. *)
Definition reduce_latency (profiles : list ComponentProfile) (total : Q) : Q :=
  foldl (λ acc entry,
           match latency_reduction_factor entry with
           | Some f =>
               foldl (λ acc' _, (acc' * (1 - f))%Q) acc
                     (filter (λ p, kind p = kind entry) profiles)
           | None => acc
           end)
        total catalog.

(** Modelled from the spec: step 2 of the algorithm, absent from the
    sources. *)
Definition latency (g : Graph) (profiles : list ComponentProfile) : Q :=
  let base := Qsum (map base_latency_ms profiles) in
  let cold :=
    (inject_Z (Z.of_nat (length (filter (λ p, cold_start p = true) profiles)))
     * 100 * 0.10)%Q in
  let network := (2 * inject_Z (Z.of_nat (hops g)))%Q in
  Qmax 0 (reduce_latency profiles (base + cold + network)%Q).

(** Modelled from the spec: the worst ceiling among the profiles, starting
    from [start]. *)
Definition cap (profiles : list ComponentProfile) (start : Z) : Z :=
  foldl (λ acc p, match scalability_ceiling p with
                  | Some c => Z.min acc c
                  | None => acc
                  end)
        start profiles.

(** Modelled from the spec: step 3 of the algorithm, absent from the
    sources. *)
Definition scalability (g : Graph) (profiles : list ComponentProfile) : Z :=
  let ceiling := cap profiles 100 in
  let size_penalty :=
    (Z.of_nat (length profiles - free_components cal) * component_penalty cal
     + Z.of_nat (length (distinct_connections g) - free_connections cal)
       * connection_penalty cal)%Z in
  let penalised := (ceiling - size_penalty)%Z in
  let bonus :=
    if bool_decide (Exists (λ p, resilient cal p = true) profiles)
    then resilience_bonus cal else 0%Z in
  Z.max 0 (Z.min 100 (Z.min ceiling (penalised + bonus))).

(** Modelled from the spec: step 4 of the algorithm, absent from the
    sources.  A component of cost zero is neither expensive nor cheap. *)
Definition cost (profiles : list ComponentProfile) : Z :=
  let expensive :=
    filter (λ p, Qle_bool (expensive_threshold cal) (base_monthly_cost p) = true)
           profiles in
  let cheap :=
    filter (λ p, Qle_bool (expensive_threshold cal) (base_monthly_cost p) = false
                 ∧ Qle_bool (base_monthly_cost p) 0 = false)
           profiles in
  let raw := (10 + 8 * Z.of_nat (length expensive)
              + 3 * Z.of_nat (length cheap))%Z in
  Z.max 0 (Z.min 100 (Qfloor (cost_scale cal * inject_Z raw)%Q)).

(** Modelled from the spec: [simulate(graph, goal)], absent from the
    sources.  The goal reaches the formatter only. *)
Definition simulate (g : Graph) (goal : SimulationGoal) : Error + ScoreReport :=
  match validate g with
  | inl e => inl e
  | inr profiles =>
      let sc := {| latency_ms := latency g profiles;
                   scalability_score := scalability g profiles;
                   cost_index := cost profiles |} in
      inr {| scores := sc; explanation := format sc goal g |}
  end.

End Scoring.

(** Modelled from the spec: the numeric part of an outcome, the error or
    the three scores. *)
Definition numbers (r : Error + ScoreReport) : Error + Scores :=
  match r with
  | inl e => inl e
  | inr rep => inr (scores rep)
  end.

(** Modelled from the spec: a few catalog entries with the numbers the
    specification and the README give for them (the relational database
    capped at 60, the cache cutting 60%, the CDN 50%), to run the engine
    on. *)
Definition sample_catalog : list ComponentProfile :=
  [ {| kind := "lambda"; base_latency_ms := 15; base_monthly_cost := 5;
       category := compute; scalability_ceiling := None;
       latency_reduction_factor := None |};
    {| kind := "rds"; base_latency_ms := 12; base_monthly_cost := 120;
       category := database; scalability_ceiling := Some 60%Z;
       latency_reduction_factor := None |};
    {| kind := "elasticache"; base_latency_ms := 2; base_monthly_cost := 80;
       category := cache; scalability_ceiling := None;
       latency_reduction_factor := Some 0.6%Q |};
    {| kind := "cloudfront"; base_latency_ms := 15; base_monthly_cost := 15;
       category := cdn; scalability_ceiling := None;
       latency_reduction_factor := Some 0.5%Q |};
    {| kind := "load_balancer"; base_latency_ms := 8; base_monthly_cost := 25;
       category := networking; scalability_ceiling := None;
       latency_reduction_factor := None |};
    {| kind := "vpc"; base_latency_ms := 0; base_monthly_cost := 0;
       category := networking; scalability_ceiling := None;
       latency_reduction_factor := None |} ]%Q.

(** Modelled from the spec: one calibration that meets the stated edge
    cases (an empty graph scores 0, 100 and 10). *)
Definition sample_calibration : Calibration :=
  {| serverless := λ p, bool_decide (kind p = "lambda");
     resilient := λ p, match category p with
                       | messaging => true
                       | _ => bool_decide (kind p = "load_balancer")
                       end;
     free_components := 5; component_penalty := 2;
     free_connections := 5; connection_penalty := 1;
     resilience_bonus := 10; expensive_threshold := 30%Q;
     cost_scale := 1%Q |}.

(** Modelled from the spec: a formatter that frames its sentence by the
    goal. *)
Definition sample_format (sc : Scores) (goal : SimulationGoal) (g : Graph)
    : string :=
  match goal with
  | low_latency => "optimized for low latency"
  | high_availability => "optimized for high availability"
  | low_cost => "optimized for low cost"
  end.

(** Modelled from the spec: a node with an empty configuration. *)
Definition node (i k : string) : GraphComponent :=
  {| id := i; component_kind := k; configuration := [] |}.

End Engine.

(** ** Callers of the store *)

(** [Array.prototype.find]: the first element that passes the test. *)
Definition find {A} (P : A → Prop) `{∀ a, Decision (P a)} (l : list A) : option A :=
  snd <$> list_find P l.

(** *** [ResultsHistory]: restoring a past result *)

(** The click on a history item. *)
Definition restoreResult (item : HistoryEntry) (now : Z) (s : LabStore) : LabStore :=
  setSimulationResult (Some (result item)) now s.

(** *** [ControlPanel]: running a simulation *)

Module InfrastructureLayout.
Record t := {
  components : list InfrastructureComponent;
  connections : list (string * string)
}.
End InfrastructureLayout.

Module SimulationRequest.
Record t := {
  layout : InfrastructureLayout.t;
  goal : SimulationGoal
}.
End SimulationRequest.

(** The request [handleSimulate] and [handleGenerateProposal] build from the
    [components], [connections] and [goal] of a store state: the components
    without their positions, the connections as they are. *)
Definition simulationRequest (s : LabStore) : SimulationRequest.t :=
  {| SimulationRequest.layout :=
       {| InfrastructureLayout.components :=
            (λ c, {| id := id c; type := type c;
                     configuration := configuration c; position := None |})
            <$> components s;
          InfrastructureLayout.connections := connections s |};
     SimulationRequest.goal := goal s |}.

(** [handleSimulate] up to its [await].  The function is a closure of a
    render of the panel: [rendered] is the store state that render read its
    [components], [connections] and [goal] from, and it is those values that
    are tested and sent; the two setters write to [s], the store as it is
    when the function runs.  For an empty rendered lab there is an alert and
    nothing else.  The clock is not read when the result is [null]. *)
Definition handleSimulate_begin (rendered s : LabStore)
    : LabStore * option SimulationRequest.t :=
  if bool_decide (length (components rendered) = 0%nat) then (s, None)
  else (setSimulationResult None 0 (setIsSimulating true s),
        Some (simulationRequest rendered)).

(** [handleSimulate] from the answer on, run on the store as it is by then:
    the result is stored on success ([Some]), an alert is shown on failure
    ([None]); the flag is lowered either way. *)
Definition handleSimulate_settle (answer : option SimulationResult) (now : Z)
    (s : LabStore) : LabStore :=
  setIsSimulating false
    (match answer with
     | Some r => setSimulationResult (Some r) now s
     | None => s
     end).

(** [handleTrigger], the panel's listener for the [triggerSimulation] event.
    The effect that registers it runs again when [components.length] or
    [isSimulating] change, so [rendered] is the store state of the last
    render at which one of them changed. *)
Definition handleTrigger (rendered s : LabStore)
    : LabStore * option SimulationRequest.t :=
  if bool_decide (0 < length (components rendered))%nat
     && negb (isSimulating rendered)
  then handleSimulate_begin rendered s
  else (s, None).

(** *** [hooks/useKeyboardShortcuts.ts] *)

Module Shortcuts.

(** The fields of the keyboard event that the handler reads. *)
Record KeyboardEvent := {
  code : string;
  key : string;
  repeat : bool;
  ctrlKey : bool;
  shiftKey : bool
}.

(** What one call of the handler does: the store it leaves, and besides
    that the default action prevented, the events dispatched, the request
    sent by the event's listener, the lines logged. *)
Record Outcome := {
  after : LabStore;
  defaultPrevented : bool;
  dispatched : list string;
  sent : option SimulationRequest.t;
  logged : list string
}.

(** Whether the Space branch dispatches [triggerSimulation]. *)
Definition triggers (e : KeyboardEvent) (store : LabStore) : bool :=
  bool_decide (code e = "Space") && negb (repeat e)
  && bool_decide (0 < length (components store))%nat
  && negb (isSimulating store).

(** The Space branch.  [window.dispatchEvent] calls the listeners before it
    returns: [listener] is the render of the panel whose [handleTrigger] is
    registered, if one is, and the store that the rest of the handler acts
    on is the one that listener leaves. *)
Definition afterSpace (e : KeyboardEvent) (listener : option LabStore)
    (s : LabStore) : LabStore * option SimulationRequest.t :=
  if triggers e s then
    match listener with
    | Some rendered => handleTrigger rendered s
    | None => (s, None)
    end
  else (s, None).

(** [handleKeyDown].  Every test reads [store], the state taken when the
    handler starts; the calls act on the store as it then is. *)
Definition handleKeyDown (e : KeyboardEvent) (listener : option LabStore)
    (s : LabStore) : Outcome :=
  let store := s in
  let space := bool_decide (code e = "Space") && negb (repeat e) in
  let heard := afterSpace e listener s in
  let delete :=
    (bool_decide (key e = "Delete") || bool_decide (key e = "Backspace"))
    && truthy (selectedComponentId store) in
  let s1 :=
    match selectedComponentId store with
    | Some sel => if delete then removeComponent sel heard.1 else heard.1
    | None => heard.1
    end in
  let escape :=
    bool_decide (key e = "Escape") && truthy (selectedComponentId store) in
  let s2 := if escape then setSelectedComponentId None s1 else s1 in
  let undo := ctrlKey e && bool_decide (key e = "z") && negb (shiftKey e) in
  let redo :=
    ctrlKey e
    && (bool_decide (key e = "y") || (shiftKey e && bool_decide (key e = "z"))) in
  {| after := s2;
     defaultPrevented := space || delete || escape || undo || redo;
     dispatched := if triggers e store then ["triggerSimulation"] else [];
     sent := heard.2;
     logged := (if undo then ["Undo not yet implemented"] else [])
               ++ (if redo then ["Redo not yet implemented"] else []) |}.

End Shortcuts.

(** *** [ComponentTemplates] *)

Module Template.
Record t := {
  name : string;
  description : string;
  components : list (string * (Q * Q));
  connections : list (nat * nat)
}.
End Template.

(** A template component: its type and its [x] and [z]. *)
Definition tc (ty : string) (tx tz : Q) : string * (Q * Q) := (ty, (tx, tz)).

Definition templates : list Template.t :=
  [ {| Template.name := "Three-tier Web App";
       Template.description :=
         "Classic web architecture with load balancer, app servers, and database";
       Template.components :=
         [ tc "load_balancer" 0 (-4); tc "lambda" (-2) 0; tc "lambda" 2 0;
           tc "rds" 0 4; tc "elasticache" 3 4 ];
       Template.connections :=
         [(0, 1); (0, 2); (1, 3); (2, 3); (1, 4); (2, 4)]%nat |};
    {| Template.name := "Serverless API";
       Template.description := "API Gateway with Lambda functions and DynamoDB";
       Template.components :=
         [ tc "api_gateway" 0 (-3); tc "lambda" 0 0; tc "dynamodb" 0 3 ];
       Template.connections := [(0, 1); (1, 2)]%nat |};
    {| Template.name := "Static Website";
       Template.description := "CloudFront CDN with S3 bucket";
       Template.components := [ tc "cloudfront" 0 (-2); tc "s3" 0 2 ];
       Template.connections := [(0, 1)]%nat |};
    {| Template.name := "Microservices";
       Template.description := "Multiple services with message queue and cache";
       Template.components :=
         [ tc "api_gateway" 0 (-4); tc "lambda" (-3) 0; tc "lambda" 0 0;
           tc "lambda" 3 0; tc "sqs" 0 2; tc "elasticache" (-2) 4;
           tc "dynamodb" 2 4 ];
       Template.connections :=
         [(0, 1); (0, 2); (0, 3); (1, 4); (2, 4); (3, 4); (1, 5); (2, 5);
          (3, 6)]%nat |} ]%Q.

(** The first loop of [handleApplyTemplate]: one [addComponent] per template
    component, at height 0; [clock i] is what [Date.now()] returns in the
    [i]-th call. *)
Fixpoint addTemplateComponents (comps : list (string * (Q * Q)))
    (clock : nat → Z) (l : Lab) : Lab :=
  match comps with
  | [] => l
  | (ty, (tx, tz)) :: rest =>
      addTemplateComponents rest (λ i, clock (S i))
        (addComponent ty {| x := tx; y := 0%Q; z := tz |} (clock 0%nat) l)
  end.

(** Connecting the components at two indexes of [comps], the component list
    read when the callback starts: nothing happens when an index is out of
    range or an id is falsy. *)
Definition connectIndexes (comps : list InfrastructureComponent)
    (cur : LabStore) (p : nat * nat) : LabStore :=
  match id <$> comps !! p.1, id <$> comps !! p.2 with
  | Some fromId, Some toId =>
      if truthy (Some fromId) && truthy (Some toId)
      then addConnection fromId toId cur
      else cur
  | _, _ => cur
  end.

(** The timer callback of [handleApplyTemplate], run on the store as it is
    when the timer fires. *)
Definition connectTemplate (t : Template.t) (s : LabStore) : LabStore :=
  foldl (connectIndexes (components s)) s (Template.connections t).

(** [handleApplyTemplate] with nothing happening between its call and its
    timer. *)
Definition handleApplyTemplate (t : Template.t) (clock : nat → Z) (l : Lab) : Lab :=
  on_store (connectTemplate t)
    (addTemplateComponents (Template.components t) clock (on_store clearLab l)).

(** *** [ControlPanel] and [AIAssistant]: connecting a generated topology *)

(** [compMap]: the generated id of the [idx]-th topology component is mapped
    to the id of the [idx]-th component of the store, when there is one; a
    later entry for the same generated id replaces the earlier. *)
Definition compMap (aiIds : list string) (comps : list InfrastructureComponent)
    : gmap string string :=
  foldl (λ m p, <[p.1 := id p.2]> m) ∅ (zip aiIds comps).

Definition connectMapped (m : gmap string string) (cur : LabStore)
    (p : string * string) : LabStore :=
  match m !! p.1, m !! p.2 with
  | Some fromId, Some toId =>
      if truthy (Some fromId) && truthy (Some toId)
      then addConnection fromId toId cur
      else cur
  | _, _ => cur
  end.

(** The part of [handleGenerateTopology] after its pause, run on the store
    as it is by then: [aiIds] are the ids of the topology's components,
    [aiConnections] its connections. *)
Definition connectTopology (aiIds : list string)
    (aiConnections : list (string * string)) (s : LabStore) : LabStore :=
  foldl (connectMapped (compMap aiIds (components s))) s aiConnections.

(** *** [LabScene]: the connection lines *)

Record Line := {
  line_start : Position;
  line_end : Position;
  line_fromId : string;
  line_toId : string
}.

(** What the scene renders for one connection: a line between the positions
    of the two components, or nothing. *)
Definition connectionLine (comps : list InfrastructureComponent)
    (c : string * string) : option Line :=
  match find (λ k, id k = c.1) comps, find (λ k, id k = c.2) comps with
  | Some fromComp, Some toComp =>
      match position fromComp, position toComp with
      | Some a, Some b =>
          Some {| line_start := a; line_end := b;
                  line_fromId := c.1; line_toId := c.2 |}
      | _, _ => None
      end
  | _, _ => None
  end.

Definition connectionLines (s : LabStore) : list (option Line) :=
  connectionLine (components s) <$> connections s.

(** *** [ResultsPanel]: the latency colour and its caption *)

Definition getLatencyColor (latency : Q) : string :=
  if Qlt_le_dec latency 50 then "text-green-400"
  else if Qlt_le_dec latency 150 then "text-yellow-400"
  else "text-red-400".

Definition latencyCaption (latency : Q) : string :=
  if Qlt_le_dec latency 50 then "Excellent"
  else if Qlt_le_dec latency 150 then "Good"
  else "Needs optimization".

(** *** [ComponentPalette]: the tooltip *)

(** The row whose details the tooltip shows for the hovered kind. *)
Definition tooltip (hoveredComponent : string) : option ComponentPalette.ComponentInfo :=
  find (λ c, ComponentPalette.type c = hoveredComponent)
       ComponentPalette.componentTypes.

(** Whether the action is an [addComponent] call, and how many of the
    actions are. *)
Definition is_addComponent (a : Action) : bool :=
  match a with
  | AddComponent _ _ _ => true
  | _ => false
  end.

Definition additions (acts : list Action) : nat :=
  length (filter (λ a, is_addComponent a = true) acts).

(** The pair of ids a pair of indexes stands for, when both are in
    range. *)
Definition idPair (comps : list InfrastructureComponent) (p : nat * nat)
    : option (string * string) :=
  match id <$> comps !! p.1, id <$> comps !! p.2 with
  | Some fromId, Some toId => Some (fromId, toId)
  | _, _ => None
  end.

(** The components the first loop of [handleApplyTemplate] appends when the
    counter stands at [counter]. *)
Fixpoint templateComponents (comps : list (string * (Q * Q)))
    (clock : nat → Z) (counter : N) : list InfrastructureComponent :=
  match comps with
  | [] => []
  | (ty, (tx, tz)) :: rest =>
      {| id := component_id ty (clock 0%nat) (counter + 1); type := ty;
         configuration := [];
         position := Some {| x := tx; y := 0%Q; z := tz |} |}
      :: templateComponents rest (λ i, clock (S i)) (counter + 1)
  end.

(** ** Basic facts about the store's building blocks *)

Lemma some_true {A} (P : A → Prop) `{∀ a, Decision (P a)} (l : list A) :
  some P l = true ↔ ∃ a, a ∈ l ∧ P a.
Proof.
  unfold some. rewrite bool_decide_eq_true. apply Exists_exists.
Qed.

Lemma some_false {A} (P : A → Prop) `{∀ a, Decision (P a)} (l : list A) :
  some P l = false ↔ ∀ a, a ∈ l → ¬ P a.
Proof.
  unfold some. rewrite bool_decide_eq_false, Exists_exists. split.
  - intros Hn a Hin HP. apply Hn. eauto.
  - intros Hall [a [Hin HP]]. by apply (Hall a).
Qed.

(** Looking for the ordered pair [(f, t)] with [some] is membership. *)
Lemma some_pair_true (f t : string) (l : list (string * string)) :
  some (λ p, p.1 = f ∧ p.2 = t) l = true ↔ (f, t) ∈ l.
Proof.
  rewrite some_true. split.
  - intros [[a b] [Hin [Ha Hb]]]. simpl in *. by subst.
  - intros Hin. exists (f, t). by split.
Qed.

Lemma some_pair_false (f t : string) (l : list (string * string)) :
  some (λ p, p.1 = f ∧ p.2 = t) l = false ↔ (f, t) ∉ l.
Proof.
  rewrite <- some_pair_true. by destruct (some _ l).
Qed.

Lemma some_either_true (f t : string) (l : list (string * string)) :
  some (λ p, (p.1 = f ∧ p.2 = t) ∨ (p.1 = t ∧ p.2 = f)) l = true
  ↔ (f, t) ∈ l ∨ (t, f) ∈ l.
Proof.
  rewrite some_true. split.
  - intros [[a b] [Hin [[Ha Hb]|[Ha Hb]]]]; simpl in *; subst; auto.
  - intros [Hin|Hin]; [exists (f, t)|exists (t, f)]; simpl; auto.
Qed.

Lemma truthy_Some (sel : string) : truthy (Some sel) = true ↔ sel ≠ "".
Proof. simpl. apply bool_decide_eq_true. Qed.

Lemma truthy_false (o : option string) :
  truthy o = false ↔ o = None ∨ o = Some "".
Proof.
  destruct o as [sel|]; simpl.
  - rewrite bool_decide_eq_false. split.
    + intros Hn. right. f_equal. by destruct (decide (sel = "")).
    + intros [?|[= ->]]; [done|]. by intros [].
  - naive_solver.
Qed.

(** An invariant that every action keeps holds after every run. *)
Lemma run_invariant (P : Lab → Prop) :
  (∀ a l, P l → P (step a l)) →
  ∀ acts l, P l → P (run acts l).
Proof.
  intros Hstep acts. unfold run.
  induction acts as [|a acts IH]; intros l Hl; simpl; [done|].
  apply IH, Hstep, Hl.
Qed.

(** The store on concrete runs. *)
Example run_ids :
  let pos := {| x := 0%Q; y := 1%Q; z := 0%Q |} in
  ids (store (run [ AddComponent "lambda" pos 1700000000000;
                    AddComponent "rds" pos 1700000000000;
                    UpdateComponentPosition "rds-1700000000000-2" pos;
                    RemoveComponent "lambda-1700000000000-1";
                    AddComponent "s3" pos 1700000000001 ] initialLab))
  = ["rds-1700000000000-2"; "s3-1700000000001-3"].
Proof. reflexivity. Qed.

Example run_connections :
  connections
    (store (run [ AddConnection "a" "b"; AddConnection "a" "b";
                  AddConnection "b" "a"; HandleComponentClick "a";
                  HandleComponentClick "c"; HandleComponentClick "c";
                  HandleComponentClick "a"; RemoveConnection "b" "a";
                  RemoveComponent "b" ] initialLab))
  = [("a", "c")].
Proof. reflexivity. Qed.

Example run_empty_selection :
  selectedComponentId
    (store (run [ SetSelectedComponentId (Some ""); HandleComponentClick "n" ]
                initialLab))
  = Some "n".
Proof. reflexivity. Qed.

(** ** Connections: duplicates and order *)

Lemma addConnection_connections fromId toId s :
  connections (addConnection fromId toId s)
  = if bool_decide ((fromId, toId) ∈ connections s) then connections s
    else connections s ++ [(fromId, toId)].
Proof.
  unfold addConnection.
  destruct (some _ (connections s)) eqn:E.
  - apply some_pair_true in E. by rewrite bool_decide_eq_true_2.
  - apply some_pair_false in E. by rewrite bool_decide_eq_false_2.
Qed.

(** C3: when the ordered pair (fromId, toId) is already among the
    connections, [addConnection fromId toId] returns the state it was given,
    so the pair is not added a second time. *)
Theorem addConnection_duplicate_unchanged fromId toId s :
  (fromId, toId) ∈ connections s →
  addConnection fromId toId s = s
  ∧ connections (addConnection fromId toId s) = connections s.
Proof.
  intros Hin. apply some_pair_true in Hin.
  unfold addConnection. by rewrite Hin.
Qed.

Lemma addConnection_duplicate_unchanged_witness :
  let s := addConnection "a" "b" initialStore in
  ("a", "b") ∈ connections s
  ∧ addConnection "a" "b" s = s
  ∧ connections (addConnection "a" "b" s) = connections s.
Proof.
  simpl.
  assert (Hin : ("a", "b") ∈ connections (addConnection "a" "b" initialStore)).
  { vm_compute. apply list_elem_of_here. }
  split; [exact Hin|].
  exact (addConnection_duplicate_unchanged "a" "b" _ Hin).
Defined.

Lemma handleComponentClick_connections cid s :
  connections (handleComponentClick cid s) = connections s
  ∨ ∃ sel, connections (handleComponentClick cid s)
           = connections s ++ [(sel, cid)].
Proof.
  unfold handleComponentClick.
  destruct (selectedComponentId s) as [sel|]; [|by left].
  destruct (negb (truthy (Some sel))); [by left|].
  destruct (bool_decide (sel = cid)); [by left|].
  destruct (negb (some _ (connections s))); [right; by exists sel|by left].
Qed.

(** C5: every store operation keeps the relative order of the connections.
    [addConnection] leaves the sequence alone or appends the new pair at its
    end; [removeConnection] and [removeComponent] return a subsequence of
    what they were given; and whatever the action, the connections after it
    are a subsequence of those before it or those before it with one pair
    appended. *)
Theorem connection_order_preserved :
  (∀ fromId toId s,
     connections (addConnection fromId toId s) = connections s
     ∨ connections (addConnection fromId toId s)
       = connections s ++ [(fromId, toId)])
  ∧ (∀ fromId toId s,
       connections (removeConnection fromId toId s)
         `sublist_of` connections s)
  ∧ (∀ rid s, connections (removeComponent rid s) `sublist_of` connections s)
  ∧ (∀ a l,
       connections (store (step a l)) `sublist_of` connections (store l)
       ∨ ∃ c, connections (store (step a l)) = connections (store l) ++ [c]).
Proof.
  split; [|split; [|split]].
  - intros f t s. rewrite addConnection_connections.
    case_bool_decide; auto.
  - intros f t s. apply sublist_filter.
  - intros rid s. apply sublist_filter.
  - intros a l. destruct a; simpl; try by left.
    + left. apply sublist_filter.
    + rewrite addConnection_connections. case_bool_decide; [by left|].
      right. by eexists.
    + left. apply sublist_filter.
    + left. by destruct r.
    + destruct (handleComponentClick_connections cid (store l)) as [->|[sel ->]];
        [by left|right; by eexists].
    + left. apply sublist_nil_l.
Qed.

(** ** The results history *)

Lemma resultsHistory_step_length a l :
  (length (resultsHistory (store l)) ≤ 5)%nat →
  (length (resultsHistory (store (step a l))) ≤ 5)%nat.
Proof.
  intros Hlen. destruct a; simpl; try done.
  - unfold addConnection. by destruct (some _ _).
  - destruct r as [res|]; simpl; [|done].
    destruct (resultsHistory (store l)) as [|? h]; simpl; [lia|].
    rewrite length_take. lia.
  - unfold handleComponentClick.
    destruct (selectedComponentId (store l)) as [sel|]; [|done].
    destruct (negb _); [done|]. destruct (bool_decide _); [done|].
    by destruct (negb _).
Qed.

(** C8: the results history never holds more than five entries, and the
    newest entry comes first.  After any run from the initial store its
    length is at most 5; [setSimulationResult] with a result puts the entry
    for it (the result, the clock reading, the number of components) in
    front of the first four older entries, which is the old history with the
    entry prepended, cut to length 5; [setSimulationResult(null)] leaves the
    history as it was. *)
Theorem resultsHistory_bounded_newest_first :
  (∀ acts, (length (resultsHistory (store (run acts initialLab))) ≤ 5)%nat)
  ∧ (∀ res now s,
       let entry := {| result := res; timestamp := now;
                       componentCount := length (components s) |} in
       resultsHistory (setSimulationResult (Some res) now s)
       = take 5 (entry :: resultsHistory s)
       ∧ resultsHistory (setSimulationResult (Some res) now s)
         = entry :: take 4 (resultsHistory s)
       ∧ simulationResult (setSimulationResult (Some res) now s) = Some res)
  ∧ (∀ now s,
       resultsHistory (setSimulationResult None now s) = resultsHistory s).
Proof.
  split; [|split].
  - intros acts.
    apply (run_invariant (λ l, (length (resultsHistory (store l)) ≤ 5)%nat)).
    + intros a l. apply resultsHistory_step_length.
    + simpl. lia.
  - intros res now s. by cbn.
  - intros now s. reflexivity.
Qed.

(** ** Clicking a component *)

(** C9: [handleComponentClick cid].  With nothing selected (the selection
    is [null], or the empty string, which the code's test also takes for no
    selection) it selects [cid] and changes nothing else.  With [sel]
    selected the selection ends cleared in every case: if [sel] is [cid] the
    click only deselects; if [sel] differs from [cid], the pair (sel, cid)
    is appended to the connections when neither it nor the reversed pair
    (cid, sel) is present, and the connections are left alone when either
    is.  [addConnection], in contrast, looks for the pair in the given
    direction only: it appends (fromId, toId) exactly when that pair is
    absent, also when the reversed pair is present. *)
Theorem handleComponentClick_cases cid s :
  (truthy (selectedComponentId s) = false →
     handleComponentClick cid s = set_selectedComponentId (Some cid) s)
  ∧ (∀ sel, selectedComponentId s = Some sel → sel ≠ "" →
       selectedComponentId (handleComponentClick cid s) = None
       ∧ (sel = cid →
            handleComponentClick cid s = set_selectedComponentId None s)
       ∧ (sel ≠ cid →
            (((sel, cid) ∉ connections s) ∧ ((cid, sel) ∉ connections s) →
               handleComponentClick cid s
               = set_connections (connections s ++ [(sel, cid)])
                   (set_selectedComponentId None s))
            ∧ ((sel, cid) ∈ connections s ∨ (cid, sel) ∈ connections s →
                 handleComponentClick cid s = set_selectedComponentId None s)
            ∧ (connections (handleComponentClick cid s)
               = connections s ++ [(sel, cid)]
               ↔ ((sel, cid) ∉ connections s) ∧ ((cid, sel) ∉ connections s))))
  ∧ (∀ fromId toId,
       (connections (addConnection fromId toId s)
        = connections s ++ [(fromId, toId)]
        ↔ (fromId, toId) ∉ connections s)
       ∧ ((toId, fromId) ∈ connections s → (fromId, toId) ∉ connections s →
            connections (addConnection fromId toId s)
            = connections s ++ [(fromId, toId)])).
Proof.
  split; [|split].
  - intros Hf. unfold handleComponentClick.
    destruct (selectedComponentId s) as [sel|]; [|done].
    by rewrite Hf.
  - intros sel Hsel Hne. unfold handleComponentClick. rewrite Hsel.
    apply truthy_Some in Hne. rewrite Hne. simpl negb.
    destruct (decide (sel = cid)) as [->|Hd].
    { rewrite bool_decide_eq_true_2 by done. by repeat split. }
    rewrite bool_decide_eq_false_2 by done.
    destruct (some _ (connections s)) eqn:E; simpl negb; cbv iota.
    + apply some_either_true in E.
      split; [done|]. split; [done|]. intros _.
      split; [intros [H1 H2]; by destruct E|]. split; [done|].
      split; [|intros [H1 H2]; by destruct E].
      simpl. intros Heq. apply (f_equal length) in Heq.
      rewrite length_app in Heq. simpl in Heq. lia.
    + assert (Hnot : ¬ ((sel, cid) ∈ connections s ∨ (cid, sel) ∈ connections s)).
      { rewrite <- some_either_true, E. discriminate. }
      split; [done|]. split; [done|]. intros _.
      split; [done|]. split; [intros Hor; by destruct Hnot|].
      split; [|done]. intros _. split; intros ?; apply Hnot; auto.
  - intros f t. rewrite addConnection_connections. split.
    + case_bool_decide as Hin; [|by split]. split; [|done].
      intros Heq. apply (f_equal length) in Heq.
      rewrite length_app in Heq. simpl in Heq. lia.
    + intros _ Hnot. by rewrite bool_decide_eq_false_2.
Qed.

Lemma handleComponentClick_cases_witness :
  let s := set_selectedComponentId (Some "a")
             (set_connections [("b", "a")] initialStore) in
  handleComponentClick "a" s = set_selectedComponentId None s
  ∧ handleComponentClick "b" s = set_selectedComponentId None s
  ∧ handleComponentClick "c" s
    = set_connections [("b", "a"); ("a", "c")] (set_selectedComponentId None s)
  ∧ handleComponentClick "a" initialStore
    = set_selectedComponentId (Some "a") initialStore
  ∧ connections (addConnection "a" "b" s) = [("b", "a"); ("a", "b")].
Proof.
  intros s.
  destruct (handleComponentClick_cases "a" s) as (_ & Ha & _).
  destruct (handleComponentClick_cases "b" s) as (_ & Hb & Hadd).
  destruct (handleComponentClick_cases "c" s) as (_ & Hc & _).
  destruct (handleComponentClick_cases "a" initialStore) as (H0 & _ & _).
  destruct (Ha "a" eq_refl ltac:(discriminate)) as (_ & Ha' & _).
  destruct (Hb "a" eq_refl ltac:(discriminate)) as (_ & _ & Hb').
  destruct (Hc "a" eq_refl ltac:(discriminate)) as (_ & _ & Hc').
  destruct (Hb' ltac:(discriminate)) as (_ & Hb'' & _).
  destruct (Hc' ltac:(discriminate)) as (Hc'' & _ & _).
  destruct (Hadd "a" "b") as (_ & Hab).
  split; [exact (Ha' eq_refl)|].
  split; [apply Hb''; right; simpl; apply list_elem_of_here|].
  split; [apply Hc''; split; simpl; rewrite list_elem_of_singleton; discriminate|].
  split; [exact (H0 eq_refl)|].
  apply Hab; simpl; [apply list_elem_of_here|].
  rewrite list_elem_of_singleton. discriminate.
Defined.

(** ** Clearing the lab *)

(** C10: [clearLab] empties [components] and [connections], sets
    [simulationResult] and [selectedComponentId] to [null], and leaves
    [goal], [useCase], [resultsHistory], [isSimulating] and
    [isDraggingComponent] with their previous values. *)
Theorem clearLab_frame s :
  components (clearLab s) = []
  ∧ connections (clearLab s) = []
  ∧ simulationResult (clearLab s) = None
  ∧ selectedComponentId (clearLab s) = None
  ∧ goal (clearLab s) = goal s
  ∧ useCase (clearLab s) = useCase s
  ∧ resultsHistory (clearLab s) = resultsHistory s
  ∧ isSimulating (clearLab s) = isSimulating s
  ∧ isDraggingComponent (clearLab s) = isDraggingComponent s.
Proof. by repeat split. Qed.

(** ** Connection endpoints and the components they name *)

Lemma ids_removeComponent rid s i :
  i ∈ ids (removeComponent rid s) ↔ i ∈ ids s ∧ i ≠ rid.
Proof.
  unfold ids. simpl. rewrite !list_elem_of_fmap. split.
  - intros [c [-> Hc]]. apply list_elem_of_filter in Hc as [Hne Hc].
    split; [by exists c|done].
  - intros [[c [-> Hc]] Hne]. exists c. split; [done|].
    by apply list_elem_of_filter.
Qed.

Lemma ids_updateComponentPosition uid pos s :
  ids (updateComponentPosition uid pos s) = ids s.
Proof.
  unfold ids. simpl. rewrite <- list_fmap_compose.
  apply list_fmap_ext. intros _ c _. simpl. by case_bool_decide.
Qed.

Lemma ids_addComponent ty pos now l :
  ids (store (addComponent ty pos now l))
  = ids (store l) ++ [component_id ty now (componentCounter l + 1)].
Proof. unfold ids. simpl. by rewrite fmap_app. Qed.

Lemma connections_removeComponent rid s p :
  p ∈ connections (removeComponent rid s)
  ↔ p ∈ connections s ∧ p.1 ≠ rid ∧ p.2 ≠ rid.
Proof. simpl. rewrite list_elem_of_filter. tauto. Qed.

Lemma addConnection_frame fromId toId s :
  components (addConnection fromId toId s) = components s
  ∧ selectedComponentId (addConnection fromId toId s) = selectedComponentId s.
Proof. unfold addConnection. by destruct (some _ _). Qed.

Lemma handleComponentClick_components cid s :
  components (handleComponentClick cid s) = components s.
Proof.
  unfold handleComponentClick.
  destruct (selectedComponentId s); [|done].
  destruct (negb _); [done|]. destruct (bool_decide _); [done|].
  by destruct (negb _).
Qed.

Lemma resolve_step a l :
  connections_resolve (store l) → selection_resolves (store l) →
  names_components a (store l) →
  connections_resolve (store (step a l))
  ∧ selection_resolves (store (step a l)).
Proof.
  unfold connections_resolve, selection_resolves.
  intros Hc Hs Hn. destruct a; cbn [step on_store store].
  - rewrite ids_addComponent. simpl. split.
    + intros p Hp. destruct (Hc p Hp). rewrite !elem_of_app. auto.
    + intros sel Hsel. rewrite elem_of_app. auto.
  - split.
    + intros p Hp. apply connections_removeComponent in Hp as (Hp & H1 & H2).
      destruct (Hc p Hp). rewrite !ids_removeComponent. auto.
    + simpl. intros sel Hsel. apply ids_removeComponent.
      case_bool_decide as Heq; [done|]. split; [auto|].
      intros ->. by apply Heq.
  - rewrite ids_updateComponentPosition. auto.
  - destruct (addConnection_frame fromId toId (store l)) as [Hcomp Hsel].
    unfold ids. rewrite Hcomp, Hsel. split; [|done].
    intros p. rewrite addConnection_connections.
    case_bool_decide; [apply Hc|].
    rewrite elem_of_app, list_elem_of_singleton.
    intros [Hp| ->]; [by apply Hc|exact Hn].
  - split; [|done]. simpl. intros p Hp.
    apply list_elem_of_filter in Hp as [_ Hp]. by apply Hc.
  - done.
  - destruct r; done.
  - done.
  - split; [done|]. simpl. intros sel ->. exact Hn.
  - done.
  - done.
  - simpl in Hn. unfold ids.
    rewrite handleComponentClick_components. fold (ids (store l)).
    unfold handleComponentClick.
    destruct (selectedComponentId (store l)) as [from|] eqn:Hsel.
    2:{ split; [done|]. simpl. by intros sel [= <-]. }
    destruct (negb (truthy (Some from))).
    { split; [done|]. simpl. by intros sel [= <-]. }
    destruct (bool_decide (from = cid)); [done|].
    destruct (negb (some _ _)); [|done].
    split; [|done]. simpl. intros p.
    rewrite elem_of_app, list_elem_of_singleton.
    intros [Hp| ->]; [by apply Hc|]. simpl. split; [by apply Hs|done].
  - split; [|done]. simpl. intros p Hp. by apply not_elem_of_nil in Hp.
Qed.

Lemma resolve_run acts : ∀ l,
  connections_resolve (store l) → selection_resolves (store l) →
  well_called acts l →
  connections_resolve (store (run acts l))
  ∧ selection_resolves (store (run acts l)).
Proof.
  induction acts as [|a acts IH]; intros l Hc Hs Hw; [done|].
  destruct Hw as [Hn Hw].
  destruct (resolve_step a l Hc Hs Hn) as [Hc' Hs'].
  exact (IH (step a l) Hc' Hs' Hw).
Qed.

(** C1, as the code has it: the store does not check the ids it is handed,
    so the invariant is kept on the condition that callers pass ids of
    components that are in the store.  If every connection endpoint and the
    selection name components, and the ids given to [addConnection],
    [handleComponentClick] and [setSelectedComponentId] do too, then after
    the action every connection endpoint and the selection still name
    components (no condition is put on the other actions); hence in every
    state reached from the initial store by such calls every connection has
    both ends among the components.  [removeComponent rid] keeps exactly the
    connections that have neither end equal to [rid]. *)
Theorem connections_resolve_for_named_ids :
  (∀ a l,
     connections_resolve (store l) → selection_resolves (store l) →
     names_components a (store l) →
     connections_resolve (store (step a l))
     ∧ selection_resolves (store (step a l)))
  ∧ (∀ acts,
       well_called acts initialLab →
       connections_resolve (store (run acts initialLab)))
  ∧ (∀ rid s p,
       p ∈ connections (removeComponent rid s)
       ↔ p ∈ connections s ∧ p.1 ≠ rid ∧ p.2 ≠ rid).
Proof.
  split; [exact resolve_step|]. split; [|exact connections_removeComponent].
  intros acts Hw. apply resolve_run; [| |done].
  - intros p Hp. by apply not_elem_of_nil in Hp.
  - intros sel Hsel. discriminate.
Qed.

Lemma connections_resolve_for_named_ids_witness :
  let pos := {| x := 0%Q; y := 1%Q; z := 0%Q |} in
  let acts :=
    [ AddComponent "lambda" pos 1000; AddComponent "rds" pos 1000;
      AddConnection "lambda-1000-1" "rds-1000-2";
      HandleComponentClick "rds-1000-2";
      HandleComponentClick "lambda-1000-1";
      RemoveComponent "rds-1000-2" ] in
  well_called acts initialLab
  ∧ connections_resolve (store (run acts initialLab)).
Proof.
  intros pos acts.
  assert (Hw : well_called acts initialLab).
  { simpl. repeat split; compute_done. }
  split; [exact Hw|].
  destruct connections_resolve_for_named_ids as (_ & Hrun & _).
  exact (Hrun acts Hw).
Defined.

(** C1 as stated fails: [addConnection] appends a pair of ids that name no
    component, so a store reachable in one call has a dangling connection. *)
Lemma addConnection_dangling_endpoint :
  let s := store (run [AddConnection "a" "b"] initialLab) in
  ("a", "b") ∈ connections s ∧ ("a" ∉ ids s) ∧ ¬ connections_resolve s.
Proof.
  simpl. assert (Hin : ("a", "b") ∈ [("a", "b")]) by apply list_elem_of_here.
  split; [exact Hin|]. split; [apply not_elem_of_nil|].
  intros Hres. destruct (Hres _ Hin) as [Ha _].
  by apply not_elem_of_nil in Ha.
Qed.

(** ** Component ids *)

Lemma append_cons (ch : ascii) (a b : string) :
  String ch a +:+ b = String ch (a +:+ b).
Proof. reflexivity. Qed.

Lemma append_empty (b : string) : "" +:+ b = b.
Proof. reflexivity. Qed.

Lemma append_assoc (a b c : string) : (a +:+ b) +:+ c = a +:+ (b +:+ c).
Proof.
  induction a as [|ch a IH]; [done|].
  rewrite !append_cons. by rewrite IH.
Qed.

Lemma dash_free_not_dashed (p d : string) :
  ¬ dash_free (p +:+ String "-" d).
Proof.
  induction p as [|ch p IH].
  - rewrite append_empty. simpl. by intros [Hne _].
  - rewrite append_cons. simpl. intros [_ Hfree]. by apply IH.
Qed.

(** What follows the last dash of a string is determined by the string. *)
Lemma after_last_dash (p1 : string) : ∀ p2 d1 d2,
  dash_free d1 → dash_free d2 →
  p1 +:+ String "-" d1 = p2 +:+ String "-" d2 → d1 = d2.
Proof.
  induction p1 as [|c1 p1 IH]; intros [|c2 p2] d1 d2 H1 H2;
    rewrite ?append_empty, ?append_cons.
  - by intros [= ->].
  - intros [= <- ->]. by apply dash_free_not_dashed in H1.
  - intros [= -> <-]. by apply dash_free_not_dashed in H2.
  - intros [= _ Heq]. by apply (IH p2).
Qed.

Lemma pretty_N_char_not_dash (d : N) : pretty_N_char d ≠ "-"%char.
Proof. unfold pretty_N_char. by repeat case_match. Qed.

Lemma dash_free_pretty_N_go (n : N) : ∀ s,
  dash_free s → dash_free (pretty_N_go n s).
Proof.
  induction (N.lt_wf_0 n) as [n _ IH]. intros s Hs.
  destruct (decide (n = 0%N)) as [->|Hn]; [by rewrite pretty_N_go_0|].
  rewrite pretty_N_go_step by lia.
  apply IH; [apply N.div_lt; lia|].
  simpl. split; [apply pretty_N_char_not_dash|done].
Qed.

Lemma dash_free_pretty_N (n : N) : dash_free (pretty n).
Proof.
  unfold pretty, pretty_N. case_decide.
  - simpl. split; [discriminate|done].
  - by apply dash_free_pretty_N_go.
Qed.

(** Two ids built from different counter values differ, whatever their
    types and clock readings. *)
Lemma component_id_counter_inj ty now k ty' now' k' :
  component_id ty now k = component_id ty' now' k' → k = k'.
Proof.
  unfold component_id. intros Heq.
  rewrite <- !(append_assoc _ "-" (pretty now +:+ _)) in Heq.
  rewrite <- !(append_assoc _ (pretty now) ("-" +:+ _)) in Heq.
  rewrite <- !(append_assoc _ "-" (pretty now' +:+ _)) in Heq.
  rewrite <- !(append_assoc _ (pretty now') ("-" +:+ _)) in Heq.
  change ("-" +:+ pretty k) with (String "-" (pretty k)) in Heq.
  change ("-" +:+ pretty k') with (String "-" (pretty k')) in Heq.
  apply after_last_dash in Heq; [|apply dash_free_pretty_N..].
  by apply (inj pretty) in Heq.
Qed.

Lemma ids_step_other a l :
  match a with
  | AddComponent _ _ _ | RemoveComponent _ | ClearLab => True
  | _ => ids (store (step a l)) = ids (store l)
  end.
Proof.
  destruct a; cbn [step on_store store]; try done.
  - apply ids_updateComponentPosition.
  - unfold ids. by destruct (addConnection_frame fromId toId (store l)) as [-> _].
  - by destruct r.
  - unfold ids. by rewrite handleComponentClick_components.
Qed.

Lemma unique_ids_step a l :
  NoDup (ids (store l)) → ids_issued l →
  NoDup (ids (store (step a l))) ∧ ids_issued (step a l).
Proof.
  intros Hnd Hiss. pose proof (ids_step_other a l) as Heq.
  destruct a;
    try (unfold ids_issued; rewrite Heq; split; [exact Hnd|exact Hiss]).
  - (* addComponent *)
    cbn [step]. unfold ids_issued. rewrite ids_addComponent. split.
    + apply NoDup_app. split; [done|]. split; [|apply NoDup_singleton].
      intros i Hi Hnew. apply list_elem_of_singleton in Hnew.
      destruct (Hiss i Hi) as (ty' & now' & k & -> & Hk).
      apply component_id_counter_inj in Hnew. lia.
    + intros i. rewrite elem_of_app, list_elem_of_singleton.
      cbn [addComponent componentCounter]. intros [Hi| ->].
      * destruct (Hiss i Hi) as (ty' & now' & k & -> & Hk).
        exists ty', now', k. split; [done|lia].
      * exists ty, now, (componentCounter l + 1)%N. split; [done|lia].
  - (* removeComponent *)
    cbn [step on_store store]. split.
    + apply (sublist_NoDup _ (ids (store l))); [done|].
      unfold ids. simpl. apply fmap_sublist, sublist_filter.
    + intros i Hi. cbn [store componentCounter] in *.
      apply ids_removeComponent in Hi as [Hi _]. by apply Hiss.
  - (* clearLab *)
    cbn [step on_store store]. split; [apply NoDup_nil_2|].
    intros i Hi. by apply not_elem_of_nil in Hi.
Qed.

(** C6: component ids are unique.  After any run from the initial store,
    in particular any sequence of [addComponent] and [removeComponent]
    calls, the ids of the components in the store are pairwise distinct.
    The reason is the one the code relies on: [addComponent] first
    increases the module's counter by one and then gives the new component
    the id [`${type}-${Date.now()}-${componentCounter}`], and two such ids
    with different counter values are different strings whatever the types
    and the clock readings are. *)
Theorem component_ids_unique :
  (∀ acts, NoDup (ids (store (run acts initialLab))))
  ∧ (∀ ty pos now l,
       (componentCounter l < componentCounter (addComponent ty pos now l))%N
       ∧ ids (store (addComponent ty pos now l))
         = ids (store l)
           ++ [component_id ty now (componentCounter (addComponent ty pos now l))])
  ∧ (∀ ty now k ty' now' k',
       k ≠ k' → component_id ty now k ≠ component_id ty' now' k').
Proof.
  split; [|split].
  - intros acts.
    apply (run_invariant (λ l, NoDup (ids (store l)) ∧ ids_issued l)).
    + intros a l [Hnd Hiss]. by apply unique_ids_step.
    + split; [apply NoDup_nil_2|].
      intros i Hi. by apply not_elem_of_nil in Hi.
  - intros ty pos now l. split; [simpl; lia|apply ids_addComponent].
  - intros ty now k ty' now' k' Hne Heq.
    by apply component_id_counter_inj in Heq.
Qed.

Lemma component_ids_unique_witness :
  let pos := {| x := 0%Q; y := 1%Q; z := 0%Q |} in
  let acts :=
    [ AddComponent "lambda" pos 1000; AddComponent "lambda" pos 1000;
      RemoveComponent "lambda-1000-1"; AddComponent "lambda" pos 1000 ] in
  NoDup (ids (store (run acts initialLab)))
  ∧ component_id "lambda" 1000 1 ≠ component_id "lambda" 1000 2.
Proof.
  intros pos acts.
  destruct component_ids_unique as (Hrun & _ & Hne).
  split; [exact (Hrun acts)|].
  apply Hne. discriminate.
Defined.

(** ** The monthly dollar estimate *)

(** [Math.round(c * 2.5)] on an integer [c]: five halves of [c], a half
    rounded up. *)
Lemma Math_round_times c :
  Math_round (inject_Z c * 2.5)%Q = ((5 * c + 1) `div` 2)%Z.
Proof.
  unfold Math_round, Qfloor, Qplus, Qmult, inject_Z. cbn [Qnum Qden].
  replace (c * 25 * 10 + 5 * Z.pos (1 * 10))%Z with ((5 * c + 1) * 50)%Z by lia.
  change (Z.pos (1 * 10 * 10)) with (2 * 50)%Z.
  apply Z.div_mul_cancel_r; lia.
Qed.

(** The rounded amount is the integer nearest to [2.5 * c]: twice the amount
    is within one of [5 * c]. *)
Lemma Math_round_nearest c :
  (5 * c - 1 < 2 * Math_round (inject_Z c * 2.5)%Q ≤ 5 * c + 1)%Z.
Proof.
  rewrite Math_round_times.
  pose proof (Z.div_mod (5 * c + 1) 2 ltac:(lia)).
  pose proof (Z.mod_pos_bound (5 * c + 1) 2 ltac:(lia)). lia.
Qed.

(** C4: the monthly dollar estimate is derived outside the engine as the
    cost index times 2.5, rounded.  For every simulation result displayed,
    the status bar and the results panel both show the amount
    [Math.round(cost_index * 2.5)], the integer nearest to 2.5 times the
    cost index, a half rounded up.  A displayed result comes from the
    engine, whose cost index is never below its baseline of 10; the proof
    needs no more of it than that it is not zero. *)
Theorem dollar_estimate_display r :
  cost_index r ≠ 0%Z →
  let dollars := Math_round (inject_Z (cost_index r) * 2.5)%Q in
  dollars = ((5 * cost_index r + 1) `div` 2)%Z
  ∧ ResultsPanel_cost (Some r) false
    = Some ("~$" +:+ pretty dollars +:+ "/month")
  ∧ estimatedCost (Some r) = "$" +:+ pretty dollars +:+ "/mo".
Proof.
  intros Hc dollars. split; [apply Math_round_times|]. split; [done|].
  unfold estimatedCost, truthy_number. by rewrite bool_decide_eq_true_2.
Qed.

Lemma dollar_estimate_display_witness :
  let r := {| estimated_latency_ms := 45%Q; scalability_score := 75;
              cost_index := 60; explanation := "ok" |} in
  let empty := {| estimated_latency_ms := 0%Q; scalability_score := 100;
                  cost_index := 10; explanation := "empty" |} in
  ResultsPanel_cost (Some r) false = Some "~$150/month"
  ∧ estimatedCost (Some r) = "$150/mo"
  ∧ ResultsPanel_cost (Some empty) false = Some "~$25/month"
  ∧ estimatedCost (Some empty) = "$25/mo".
Proof.
  intros r empty.
  destruct (dollar_estimate_display r ltac:(discriminate)) as (_ & Hpanel & Hbar).
  destruct (dollar_estimate_display empty ltac:(discriminate))
    as (_ & Hpanel' & Hbar').
  split; [exact Hpanel|]. split; [exact Hbar|].
  split; [exact Hpanel'|exact Hbar'].
Defined.

(** ** The palette's table of kinds *)

(** C7: the palette's table has exactly 17 entries, their kinds are
    pairwise distinct, and every kind is a member of the [ComponentType]
    union.  The table is a constant: no action of the store and no function
    of this development takes or returns it. *)
Theorem componentTypes_catalog :
  length ComponentPalette.componentTypes = 17%nat
  ∧ NoDup ComponentPalette.kinds
  ∧ Forall (λ k, k ∈ ComponentType) ComponentPalette.kinds.
Proof.
  split; [reflexivity|]. split.
  - compute_done.
  - compute_done.
Qed.

(** ** The engine: the goal and the scores *)

Section GoalIndependence.

Import Engine.

Context (catalog : list ComponentProfile) (cal : Calibration).
Context (format : Scores → SimulationGoal → Graph → string).

(** The outcome of validation does not depend on the goal, and on success
    the report carries the scores computed from the graph alone. *)
Lemma simulate_numbers g goal :
  numbers (simulate catalog cal format g goal)
  = match validate catalog g with
    | inl e => inl e
    | inr profiles =>
        inr {| latency_ms := latency catalog cal g profiles;
               scalability_score := scalability cal g profiles;
               cost_index := cost cal profiles |}
    end.
Proof. unfold simulate. by destruct (validate catalog g). Qed.

Lemma simulate_explanation g goal rep :
  simulate catalog cal format g goal = inr rep →
  explanation rep = format (scores rep) goal g.
Proof.
  unfold simulate. destruct (validate catalog g); [done|].
  by intros [= <-].
Qed.

End GoalIndependence.

(** C2: the goal does not interfere with the scores.  For every catalog,
    calibration and formatter, every graph and every two goals, the two runs
    of [simulate] either fail with the same error or return reports with
    the same latency, the same scalability score and the same cost index;
    the explanation is the one field computed from the goal. *)
Theorem goal_noninterference catalog cal format g (goal1 goal2 : SimulationGoal) :
  Engine.numbers (Engine.simulate catalog cal format g goal1)
  = Engine.numbers (Engine.simulate catalog cal format g goal2)
  ∧ ∀ rep1 rep2,
      Engine.simulate catalog cal format g goal1 = inr rep1 →
      Engine.simulate catalog cal format g goal2 = inr rep2 →
      Engine.latency_ms (Engine.scores rep1) = Engine.latency_ms (Engine.scores rep2)
      ∧ Engine.scalability_score (Engine.scores rep1)
        = Engine.scalability_score (Engine.scores rep2)
      ∧ Engine.cost_index (Engine.scores rep1) = Engine.cost_index (Engine.scores rep2)
      ∧ Engine.explanation rep1 = format (Engine.scores rep1) goal1 g
      ∧ Engine.explanation rep2 = format (Engine.scores rep1) goal2 g.
Proof.
  assert (Hnum : Engine.numbers (Engine.simulate catalog cal format g goal1)
                 = Engine.numbers (Engine.simulate catalog cal format g goal2))
    by (by rewrite !simulate_numbers).
  split; [exact Hnum|]. intros rep1 rep2 H1 H2.
  pose proof (simulate_explanation _ _ _ _ _ _ H1) as He1.
  pose proof (simulate_explanation _ _ _ _ _ _ H2) as He2.
  rewrite H1, H2 in Hnum. simpl in Hnum. injection Hnum as Hs.
  rewrite He1, He2, Hs. by repeat split.
Qed.

Lemma goal_noninterference_witness :
  let g := {| Engine.components :=
                [ Engine.node "lb" "load_balancer"; Engine.node "fn" "lambda";
                  Engine.node "db" "rds" ];
              Engine.connections := [("lb", "fn"); ("fn", "db")] |} in
  let sim := Engine.simulate Engine.sample_catalog Engine.sample_calibration
               Engine.sample_format g in
  ∃ rep1 rep2,
    sim low_latency = inr rep1 ∧ sim low_cost = inr rep2
    ∧ Engine.scores rep1 = Engine.scores rep2
    ∧ Engine.explanation rep1 = "optimized for low latency"
    ∧ Engine.explanation rep2 = "optimized for low cost".
Proof.
  intros g sim.
  destruct (Engine.simulate Engine.sample_catalog Engine.sample_calibration
              Engine.sample_format g low_latency) as [e1|rep1] eqn:E1;
    [by vm_compute in E1|].
  destruct (Engine.simulate Engine.sample_catalog Engine.sample_calibration
              Engine.sample_format g low_cost) as [e2|rep2] eqn:E2;
    [by vm_compute in E2|].
  destruct (goal_noninterference Engine.sample_catalog
              Engine.sample_calibration Engine.sample_format g
              low_latency low_cost) as [Hnum Hrep].
  destruct (Hrep rep1 rep2 E1 E2) as (_ & _ & _ & He1 & He2).
  exists rep1, rep2. unfold sim. rewrite E1, E2 in *.
  split; [done|]. split; [done|].
  split; [by injection Hnum|]. split; [exact He1|exact He2].
Defined.

(** The engine on the specification's edge cases: the empty graph, a
    dangling connection, an unknown kind. *)
Example simulate_empty_graph :
  Engine.numbers
    (Engine.simulate Engine.sample_catalog Engine.sample_calibration
       Engine.sample_format
       {| Engine.components := []; Engine.connections := [] |} low_cost)
  = inr {| Engine.latency_ms := 0; Engine.scalability_score := 100;
           Engine.cost_index := 10 |}.
Proof. reflexivity. Qed.

Example simulate_dangling_connection :
  Engine.simulate Engine.sample_catalog Engine.sample_calibration
    Engine.sample_format
    {| Engine.components := [Engine.node "a" "lambda"];
       Engine.connections := [("a", "b")] |} low_latency
  = inl Engine.DanglingConnection.
Proof. reflexivity. Qed.

Example simulate_unknown_kind :
  Engine.simulate Engine.sample_catalog Engine.sample_calibration
    Engine.sample_format
    {| Engine.components := [Engine.node "a" "not_a_real_service"];
       Engine.connections := [] |} high_availability
  = inl Engine.UnknownComponentKind.
Proof. reflexivity. Qed.

(** A cache anywhere in the graph cuts the total latency by 60%: 51 ms
    before the cache's reduction, 20.4 ms after it. *)
Example simulate_cache_reduction :
  let without :=
    {| Engine.components :=
         [ Engine.node "lb" "load_balancer"; Engine.node "fn" "lambda";
           Engine.node "db" "rds" ];
       Engine.connections := [("lb", "fn"); ("fn", "db")] |} in
  let with_cache :=
    {| Engine.components :=
         Engine.components without ++ [Engine.node "c" "elasticache"];
       Engine.connections := Engine.connections without |} in
  let sim := Engine.simulate Engine.sample_catalog Engine.sample_calibration
               Engine.sample_format in
  ∃ r1 r2,
    sim without low_latency = inr r1 ∧ sim with_cache low_latency = inr r2
    ∧ (Engine.latency_ms (Engine.scores r1) == 49)%Q
    ∧ (Engine.latency_ms (Engine.scores r2) == 0.4 * (49 + 2))%Q
    ∧ Engine.scalability_score (Engine.scores r2) = 60%Z.
Proof. simpl. eexists _, _. by repeat split. Qed.

(** ** More about the store's actions *)

Lemma set_connections_same s : set_connections (connections s) s = s.
Proof. by destruct s. Qed.

Lemma set_components_same s : set_components (components s) s = s.
Proof. by destruct s. Qed.

Lemma set_selectedComponentId_same s :
  set_selectedComponentId (selectedComponentId s) s = s.
Proof. by destruct s. Qed.

Lemma filter_all {A} (P : A → Prop) `{∀ a, Decision (P a)} (l : list A) :
  (∀ a, a ∈ l → P a) → filter P l = l.
Proof.
  induction l as [|a l IH]; intros Hall; [done|].
  rewrite filter_cons_True by (apply Hall; left).
  f_equal. apply IH. intros b Hb. apply Hall. by right.
Qed.

Lemma filter_twice {A} (P : A → Prop) `{∀ a, Decision (P a)} (l : list A) :
  filter P (filter P l) = filter P l.
Proof.
  apply filter_all. intros a Ha. by apply list_elem_of_filter in Ha as [? _].
Qed.

(** X1: Adding a connection that was not there and removing it again gives back
    the state one started from. *)
Theorem removeConnection_addConnection fromId toId s :
  (fromId, toId) ∉ connections s →
  removeConnection fromId toId (addConnection fromId toId s) = s.
Proof.
  intros Hnot. unfold removeConnection.
  destruct (addConnection_frame fromId toId s) as [Hc Hsel].
  assert (Hconn : connections (addConnection fromId toId s)
                  = connections s ++ [(fromId, toId)]).
  { rewrite addConnection_connections. by rewrite bool_decide_eq_false_2. }
  rewrite Hconn, filter_app.
  rewrite filter_all.
  2:{ intros [a b] Hin [Ha Hb]. simpl in *. subst. by apply Hnot. }
  rewrite filter_cons_False by (intros Hn; by apply Hn).
  rewrite filter_nil, app_nil_r.
  unfold addConnection.
  apply some_pair_false in Hnot. rewrite Hnot.
  destruct s. reflexivity.
Qed.

Lemma removeConnection_addConnection_witness :
  let s := addConnection "a" "b" initialStore in
(("b", "a") ∉ connections s)
  ∧ removeConnection "b" "a" (addConnection "b" "a" s) = s.
Proof.
  intros s.
  assert (Hnot : ("b", "a") ∉ connections s).
  { simpl. rewrite list_elem_of_singleton. discriminate. }
  split; [exact Hnot|].
  exact (removeConnection_addConnection "b" "a" s Hnot).
Defined.

(** X2: [removeConnection] drops the given ordered pair and nothing else: the
    other connections stay, the reversed pair included; doing it twice is
    doing it once; and when the pair is not there the state is returned
    unchanged. *)
Theorem removeConnection_exactly fromId toId s :
  (∀ p, p ∈ connections (removeConnection fromId toId s)
        ↔ p ∈ connections s ∧ p ≠ (fromId, toId))
  ∧ removeConnection fromId toId (removeConnection fromId toId s)
    = removeConnection fromId toId s
  ∧ components (removeConnection fromId toId s) = components s
  ∧ selectedComponentId (removeConnection fromId toId s)
    = selectedComponentId s
  ∧ ((fromId, toId) ∉ connections s → removeConnection fromId toId s = s).
Proof.
  split; [|split; [|split; [done|split; [done|]]]].
  - intros [a b]. simpl. rewrite list_elem_of_filter. simpl. split.
    + intros [Hn Hin]. split; [done|]. intros [= -> ->]. by apply Hn.
    + intros [Hin Hn]. split; [|done]. intros [-> ->]. by apply Hn.
  - unfold removeConnection at 1 3. simpl. by rewrite filter_twice.
  - intros Hnot. unfold removeConnection. rewrite filter_all.
    + apply set_connections_same.
    + intros [a b] Hin [Ha Hb]. simpl in *. subst. by apply Hnot.
Qed.

Lemma removeConnection_exactly_witness :
  let s := addConnection "b" "a" (addConnection "a" "b" initialStore) in
  connections (removeConnection "a" "b" s) = [("b", "a")]
  ∧ removeConnection "c" "d" s = s.
Proof.
  intros s.
  destruct (removeConnection_exactly "c" "d" s) as (_ & _ & _ & _ & Hsame).
  split; [reflexivity|]. apply Hsame. compute_done.
Defined.

Lemma removeComponent_twice rid s :
  removeComponent rid (removeComponent rid s) = removeComponent rid s.
Proof.
  destruct s as [comps conns g r h sim sel drag uc].
  unfold removeComponent, set_components, set_connections,
    set_selectedComponentId. simpl. rewrite !filter_twice. f_equal.
  destruct sel; repeat case_bool_decide; congruence.
Qed.

(** X3: [removeComponent rid] removes the components whose id is [rid] and keeps
    the others in their order; afterwards [rid] is not an id of the store
    and is not selected, while a selection of another id stays; removing
    twice is removing once; and for an id that names no component the
    components are left as they are. *)
Theorem removeComponent_exactly rid s :
  (∀ c, c ∈ components (removeComponent rid s)
        ↔ c ∈ components s ∧ id c ≠ rid)
  ∧ components (removeComponent rid s) `sublist_of` components s
  ∧ (rid ∉ ids (removeComponent rid s))
  ∧ selectedComponentId (removeComponent rid s) ≠ Some rid
  ∧ (∀ sel, sel ≠ rid → selectedComponentId s = Some sel →
       selectedComponentId (removeComponent rid s) = Some sel)
  ∧ removeComponent rid (removeComponent rid s) = removeComponent rid s
  ∧ ((rid ∉ ids s) →
       components (removeComponent rid s) = components s).
Proof.
  split; [|split; [|split; [|split; [|split; [|split]]]]].
  - intros c. simpl. rewrite list_elem_of_filter. tauto.
  - apply sublist_filter.
  - rewrite ids_removeComponent. by intros [_ Hne].
  - simpl. case_bool_decide as Heq; [done|]. exact Heq.
  - intros sel Hne Hsel. simpl. rewrite Hsel.
    rewrite bool_decide_eq_false_2; [done|]. by intros [= ->].
  - apply removeComponent_twice.
  - intros Hnot. simpl. apply filter_all. intros c Hc Heq.
    apply Hnot. rewrite <- Heq. unfold ids. by apply list_elem_of_fmap_2.
Qed.

Lemma removeComponent_exactly_witness :
  let pos := {| x := 0%Q; y := 1%Q; z := 0%Q |} in
  let s := store (run [ AddComponent "lambda" pos 7; AddComponent "rds" pos 7;
                        SetSelectedComponentId (Some "rds-7-2") ] initialLab) in
  ids (removeComponent "lambda-7-1" s) = ["rds-7-2"]
  ∧ selectedComponentId (removeComponent "lambda-7-1" s) = Some "rds-7-2"
  ∧ components (removeComponent "ghost" s) = components s.
Proof.
  intros pos s.
  destruct (removeComponent_exactly "lambda-7-1" s) as (_ & _ & _ & _ & Hsel & _).
  destruct (removeComponent_exactly "ghost" s) as (_ & _ & _ & _ & _ & _ & Hghost).
  split; [reflexivity|]. split.
  - apply Hsel; [discriminate|reflexivity].
  - apply Hghost. compute_done.
Defined.

(** X4: [updateComponentPosition uid pos] keeps the ids, the types and the
    order of the components, the connections and the selection; every
    component with id [uid] ends at [pos], every other component is kept as
    it is; for an id that names no component the state is returned
    unchanged. *)
Theorem updateComponentPosition_exactly uid pos s :
  ids (updateComponentPosition uid pos s) = ids s
  ∧ type <$> components (updateComponentPosition uid pos s)
    = type <$> components s
  ∧ connections (updateComponentPosition uid pos s) = connections s
  ∧ selectedComponentId (updateComponentPosition uid pos s)
    = selectedComponentId s
  ∧ (∀ c, c ∈ components (updateComponentPosition uid pos s) →
          id c = uid → position c = Some pos)
  ∧ (∀ c, c ∈ components s → id c ≠ uid →
          c ∈ components (updateComponentPosition uid pos s))
  ∧ ((uid ∉ ids s) → updateComponentPosition uid pos s = s).
Proof.
  split; [apply ids_updateComponentPosition|].
  split.
  { simpl. rewrite <- list_fmap_compose. apply list_fmap_ext.
    intros _ c _. simpl. by case_bool_decide. }
  split; [done|]. split; [done|]. split; [|split].
  - intros c Hc Hid. simpl in Hc. apply list_elem_of_fmap in Hc as [c0 [-> Hc0]].
    case_bool_decide as Heq; [done|]. by destruct Heq.
  - intros c Hc Hne. simpl. apply list_elem_of_fmap. exists c.
    split; [|done]. by rewrite bool_decide_eq_false_2.
  - intros Hnot. unfold updateComponentPosition.
    match goal with |- set_components ?l s = s =>
      assert (Hmap : l = components s) end.
    { transitivity (Datatypes.id <$> components s); [|apply list_fmap_id].
      apply list_fmap_ext. intros i c Hc. simpl.
      rewrite bool_decide_eq_false_2; [done|]. intros <-. apply Hnot.
      unfold ids. apply list_elem_of_fmap_2. by eapply list_elem_of_lookup_2. }
    rewrite Hmap. apply set_components_same.
Qed.

Lemma updateComponentPosition_exactly_witness :
  let pos := {| x := 0%Q; y := 1%Q; z := 0%Q |} in
  let there := {| x := 3%Q; y := 1%Q; z := 2%Q |} in
  let s := store (run [ AddComponent "lambda" pos 7; AddComponent "rds" pos 7 ]
                      initialLab) in
  position <$> components (updateComponentPosition "rds-7-2" there s)
  = [Some pos; Some there]
  ∧ updateComponentPosition "ghost" there s = s.
Proof.
  intros pos there s.
  destruct (updateComponentPosition_exactly "ghost" there s)
    as (_ & _ & _ & _ & _ & _ & Hghost).
  split; [reflexivity|]. apply Hghost. compute_done.
Defined.

(** X5: Clicking a component twice in a row, with nothing selected before,
    selects it and deselects it again: the store is back where it was. *)
Theorem handleComponentClick_twice cid s :
  selectedComponentId s = None → cid ≠ "" →
  handleComponentClick cid (handleComponentClick cid s) = s.
Proof.
  intros Hnone Hne.
  assert (H1 : handleComponentClick cid s = set_selectedComponentId (Some cid) s).
  { unfold handleComponentClick. by rewrite Hnone. }
  rewrite H1. unfold handleComponentClick. simpl.
  rewrite (bool_decide_eq_true_2 (cid ≠ "")) by done. simpl.
  rewrite bool_decide_eq_true_2 by done.
  destruct s. simpl in *. by subst.
Qed.

Lemma handleComponentClick_twice_witness :
  handleComponentClick "n" (handleComponentClick "n" initialStore) = initialStore.
Proof.
  apply handleComponentClick_twice; [reflexivity|discriminate].
Defined.

Lemma handleComponentClick_appends cid s :
  connections (handleComponentClick cid s) = connections s
  ∨ ∃ sel, ((sel, cid) ∉ connections s)
           ∧ connections (handleComponentClick cid s)
             = connections s ++ [(sel, cid)].
Proof.
  unfold handleComponentClick.
  destruct (selectedComponentId s) as [sel|]; [|by left].
  destruct (negb (truthy (Some sel))); [by left|].
  destruct (bool_decide (sel = cid)); [by left|].
  destruct (some _ (connections s)) eqn:E; [by left|].
  right. exists sel. split; [|done].
  intros Hin. assert (Ht : (sel, cid) ∈ connections s ∨ (cid, sel) ∈ connections s)
    by auto.
  apply some_either_true in Ht. congruence.
Qed.

Lemma connections_NoDup_step a l :
  NoDup (connections (store l)) → NoDup (connections (store (step a l))).
Proof.
  intros Hnd. destruct a; cbn [step on_store store]; try done.
  - simpl. by apply NoDup_filter.
  - rewrite addConnection_connections. case_bool_decide as Hin; [done|].
    apply NoDup_app. split; [done|]. split; [|apply NoDup_singleton].
    intros p Hp Hq. apply list_elem_of_singleton in Hq. by subst.
  - simpl. by apply NoDup_filter.
  - by destruct r.
  - destruct (handleComponentClick_appends cid (store l)) as [->|(sel & Hnot & ->)];
      [done|].
    apply NoDup_app. split; [done|]. split; [|apply NoDup_singleton].
    intros p Hp Hq. apply list_elem_of_singleton in Hq. by subst.
  - simpl. apply NoDup_nil_2.
Qed.

(** X6: In every state reached from the initial store no ordered pair occurs
    twice among the connections, whatever actions are called with whatever
    ids. *)
Theorem connections_never_repeat acts :
  NoDup (connections (store (run acts initialLab))).
Proof.
  apply (run_invariant (λ l, NoDup (connections (store l)))).
  - intros a l. apply connections_NoDup_step.
  - apply NoDup_nil_2.
Qed.

(** ** Components in reachable states *)

Lemma components_step a l c :
  c ∈ components (store (step a l)) →
  match a with
  | AddComponent ty pos now =>
      c ∈ components (store l)
      ∨ c = {| id := component_id ty now (componentCounter l + 1);
               type := ty; configuration := []; position := Some pos |}
  | UpdateComponentPosition uid pos =>
      c ∈ components (store l)
      ∨ ∃ c0, c0 ∈ components (store l)
              ∧ c = {| id := id c0; type := type c0;
                       configuration := configuration c0;
                       position := Some pos |}
  | _ => c ∈ components (store l)
  end.
Proof.
  destruct a; cbn [step on_store store]; try done.
  - simpl. rewrite elem_of_app, list_elem_of_singleton. tauto.
  - simpl. rewrite list_elem_of_filter. tauto.
  - simpl. rewrite list_elem_of_fmap. intros [c0 [-> Hc0]].
    case_bool_decide; [right; by exists c0|by left].
  - by destruct (addConnection_frame fromId toId (store l)) as [-> _].
  - by destruct r.
  - by rewrite handleComponentClick_components.
  - simpl. by intros ?%not_elem_of_nil.
Qed.

Lemma componentCounter_step a l :
  componentCounter (step a l)
  = (componentCounter l + if is_addComponent a then 1 else 0)%N.
Proof. destruct a; simpl; lia. Qed.

Lemma componentCounter_run acts : ∀ l,
  componentCounter (run acts l)
  = (componentCounter l + N.of_nat (additions acts))%N.
Proof.
  unfold additions.
  induction acts as [|a acts IH]; intros l; [simpl; lia|].
  change (run (a :: acts) l) with (run acts (step a l)).
  rewrite IH, componentCounter_step, filter_cons.
  destruct (is_addComponent a); case_decide; try done; simpl length; lia.
Qed.

Lemma reachable_components acts c :
  c ∈ components (store (run acts initialLab)) →
  is_Some (position c) ∧ configuration c = []
  ∧ ∃ now k, id c = component_id (type c) now k
             ∧ (1 ≤ k ≤ componentCounter (run acts initialLab))%N.
Proof.
  revert c.
  apply (run_invariant
    (λ l, ∀ c, c ∈ components (store l) →
       is_Some (position c) ∧ configuration c = []
       ∧ ∃ now k, id c = component_id (type c) now k
                  ∧ (1 ≤ k ≤ componentCounter l)%N)).
  - intros a l IH c Hc. apply components_step in Hc.
    rewrite componentCounter_step.
    assert (Hold : ∀ c0, c0 ∈ components (store l) →
              is_Some (position c0) ∧ configuration c0 = []
              ∧ ∃ now k, id c0 = component_id (type c0) now k
                  ∧ (1 ≤ k ≤ componentCounter l
                             + (if is_addComponent a then 1 else 0))%N).
    { intros c0 Hc0. destruct (IH c0 Hc0) as (Hp & Hcfg & now & k & Hid & Hk).
      split; [done|]. split; [done|]. exists now, k. split; [done|].
      destruct (is_addComponent a); lia. }
    destruct a; try (by apply Hold).
    + destruct Hc as [Hc| ->]; [by apply Hold|]. simpl.
      split; [by eexists|]. split; [done|].
      exists now, (componentCounter l + 1)%N. split; [done|lia].
    + destruct Hc as [Hc|(c0 & Hc0 & ->)]; [by apply Hold|]. simpl.
      destruct (Hold c0 Hc0) as (_ & Hcfg & Hid).
      split; [by eexists|]. by split.
  - simpl. by intros c ?%not_elem_of_nil.
Qed.


(** X7: Every component of a state reached from the initial store is as
    [addComponent] made it, up to its position: it has a position, its
    configuration is empty, and its id is built from its own type, a clock
    reading and a counter value between 1 and the current counter. *)
Theorem components_as_added acts c :
  c ∈ components (store (run acts initialLab)) →
  is_Some (position c) ∧ configuration c = []
  ∧ ∃ now k, id c = component_id (type c) now k
             ∧ (1 ≤ k ≤ componentCounter (run acts initialLab))%N.
Proof. apply reachable_components. Qed.

Lemma components_as_added_witness :
  let pos := {| x := 0%Q; y := 1%Q; z := 0%Q |} in
  let acts := [ AddComponent "lambda" pos 7; ClearLab;
                AddComponent "rds" pos 8;
                UpdateComponentPosition "rds-8-2" pos ] in
  ∃ c, c ∈ components (store (run acts initialLab))
       ∧ type c = "rds" ∧ is_Some (position c) ∧ configuration c = [].
Proof.
  intros pos acts.
  exists {| id := "rds-8-2"; type := "rds"; configuration := [];
            position := Some pos |}.
  assert (Hin : {| id := "rds-8-2"; type := "rds"; configuration := [];
                   position := Some pos |}
                ∈ components (store (run acts initialLab))).
  { vm_compute. apply list_elem_of_here. }
  destruct (components_as_added acts _ Hin) as (Hp & Hcfg & _).
  by repeat split.
Defined.

Lemma unique_ids_run acts :
  NoDup (ids (store (run acts initialLab))) ∧ ids_issued (run acts initialLab).
Proof.
  apply (run_invariant (λ l, NoDup (ids (store l)) ∧ ids_issued l)).
  - intros a l [Hnd His]. by apply unique_ids_step.
  - split; [apply NoDup_nil_2|]. by intros j ?%not_elem_of_nil.
Qed.

(** X8: The counter counts the [addComponent] calls of the run: removing
    components and clearing the lab never lower it.  So an id that was in
    the store at some point of a run is never given to a component added
    later, also when the component that had it is gone by then. *)
Theorem ids_never_reused acts1 acts2 ty now i :
  let earlier := run acts1 initialLab in
  let later := run acts2 earlier in
  i ∈ ids (store earlier) →
  componentCounter later = N.of_nat (additions acts1 + additions acts2)
  ∧ component_id ty now (componentCounter later + 1) ≠ i.
Proof.
  intros earlier later Hi.
  assert (Hc1 : componentCounter earlier = N.of_nat (additions acts1)).
  { unfold earlier. by rewrite componentCounter_run. }
  assert (Hc2 : componentCounter later
                = (componentCounter earlier + N.of_nat (additions acts2))%N).
  { unfold later. by rewrite componentCounter_run. }
  split; [lia|].
  destruct (unique_ids_run acts1) as [_ Hiss]. fold earlier in Hiss.
  destruct (Hiss i Hi) as (ty' & now' & k & -> & Hk).
  intros Heq. apply component_id_counter_inj in Heq. lia.
Qed.

Lemma ids_never_reused_witness :
  let pos := {| x := 0%Q; y := 1%Q; z := 0%Q |} in
  let acts1 := [ AddComponent "lambda" pos 7 ] in
  let acts2 := [ RemoveComponent "lambda-7-1"; ClearLab ] in
  ids (store (run (acts2 ++ [AddComponent "lambda" pos 7])
                  (run acts1 initialLab)))
  = ["lambda-7-2"]
  ∧ component_id "lambda" 7 (componentCounter (run acts2 (run acts1 initialLab)) + 1)
    ≠ "lambda-7-1".
Proof.
  intros pos acts1 acts2. split; [reflexivity|].
  assert (Hin : "lambda-7-1" ∈ ids (store (run acts1 initialLab))).
  { vm_compute. apply list_elem_of_here. }
  exact (proj2 (ids_never_reused acts1 acts2 "lambda" 7 "lambda-7-1" Hin)).
Defined.

(** ** Running a simulation *)

Lemma handleSimulate_begin_cases rendered s :
  (components rendered = [] ∧ handleSimulate_begin rendered s = (s, None))
  ∨ (components rendered ≠ []
     ∧ handleSimulate_begin rendered s
       = (setSimulationResult None 0 (setIsSimulating true s),
          Some (simulationRequest rendered))).
Proof.
  unfold handleSimulate_begin.
  destruct (components rendered) as [|c l] eqn:Hc; [by left|].
  right. split; [done|]. by rewrite bool_decide_eq_false_2.
Qed.

(** X13: [handleSimulate] as made by a render that read the store state
    [rendered], run on the store [s], with nothing else touching the store
    before the answer.  When the rendered lab is empty nothing is sent and
    the store is left alone.  Otherwise the request sent is the one of the
    rendered components, connections and goal; the flag is raised and the
    old result dropped; and once the answer is in the flag is down, the
    graph and the selection of the store are as before, and the result
    shown is the answer: on success the new result, recorded in front of
    the history with the store's current number of components; on failure
    nothing, with the history as it was. *)
Theorem handleSimulate_outcome answer now rendered s :
  (components rendered = [] → handleSimulate_begin rendered s = (s, None))
  ∧ (components rendered ≠ [] →
       let started := (handleSimulate_begin rendered s).1 in
       let final := handleSimulate_settle answer now started in
       (handleSimulate_begin rendered s).2 = Some (simulationRequest rendered)
       ∧ isSimulating started = true ∧ simulationResult started = None
       ∧ isSimulating final = false
       ∧ simulationResult final = answer
       ∧ resultsHistory final
         = match answer with
           | Some r => take 5 ({| result := r; timestamp := now;
                                  componentCount := length (components s) |}
                               :: resultsHistory s)
           | None => resultsHistory s
           end
       ∧ components final = components s
       ∧ connections final = connections s
       ∧ selectedComponentId final = selectedComponentId s).
Proof.
  destruct (handleSimulate_begin_cases rendered s) as [[He ->]|[Hne ->]].
  - split; [done|]. by intros Hne.
  - split; [by intros He|]. intros _. simpl. by destruct answer.
Qed.

Lemma handleSimulate_outcome_witness :
  let pos := {| x := 0%Q; y := 1%Q; z := 0%Q |} in
  let rendered := store (addComponent "lambda" pos 7 initialLab) in
  let s := setGoal low_cost rendered in
  handleSimulate_begin initialStore s = (s, None)
  ∧ SimulationRequest.goal
      <$> (handleSimulate_begin rendered s).2 = Some low_latency
  ∧ simulationResult
      (handleSimulate_settle None 9 (handleSimulate_begin rendered s).1) = None
  ∧ isSimulating
      (handleSimulate_settle None 9 (handleSimulate_begin rendered s).1) = false.
Proof.
  intros pos rendered s.
  destruct (handleSimulate_outcome None 9 initialStore s) as [Hempty _].
  destruct (handleSimulate_outcome None 9 rendered s) as [_ Hrun].
  destruct (Hrun ltac:(discriminate)) as (Hreq & _ & _ & Hflag & Hres & _).
  split; [exact (Hempty eq_refl)|]. split; [by rewrite Hreq|].
  split; [exact Hres|exact Hflag].
Defined.

(** Whatever the store has become while the answer was awaited, settling
    lowers the flag and leaves the graph, the selection and the goal alone;
    a failure leaves the result and the history alone as well. *)
Lemma handleSimulate_settle_any answer now s :
  isSimulating (handleSimulate_settle answer now s) = false
  ∧ components (handleSimulate_settle answer now s) = components s
  ∧ connections (handleSimulate_settle answer now s) = connections s
  ∧ selectedComponentId (handleSimulate_settle answer now s)
    = selectedComponentId s
  ∧ goal (handleSimulate_settle answer now s) = goal s
  ∧ handleSimulate_settle None now s = setIsSimulating false s.
Proof. by destruct answer. Qed.

(** ** The keyboard shortcuts *)

Lemma removeComponent_resolve rid s :
  connections_resolve s → connections_resolve (removeComponent rid s).
Proof.
  intros Hc p Hp. apply connections_removeComponent in Hp as (Hp & H1 & H2).
  destruct (Hc p Hp). rewrite !ids_removeComponent. auto.
Qed.

Lemma triggers_true e s :
  Shortcuts.triggers e s = true
  ↔ Shortcuts.code e = "Space" ∧ Shortcuts.repeat e = false
    ∧ components s ≠ [] ∧ isSimulating s = false.
Proof.
  unfold Shortcuts.triggers.
  rewrite !andb_true_iff, !bool_decide_eq_true, !negb_true_iff.
  destruct (components s); simpl; [|intuition (done || lia)].
  intuition (done || lia).
Qed.

Lemma handleTrigger_cases rendered s :
  handleTrigger rendered s = (s, None)
  ∨ (components rendered ≠ [] ∧ isSimulating rendered = false
     ∧ handleTrigger rendered s
       = (setSimulationResult None 0 (setIsSimulating true s),
          Some (simulationRequest rendered))).
Proof.
  unfold handleTrigger.
  destruct (handleSimulate_begin_cases rendered s) as [[He ->]|[Hne ->]].
  - left. by destruct (_ && _).
  - destruct (isSimulating rendered); [left; by rewrite andb_false_r|].
    destruct (bool_decide _); [right; by repeat split|by left].
Qed.

Lemma afterSpace_cases e listener s :
  Shortcuts.afterSpace e listener s = (s, None)
  ∨ (Shortcuts.triggers e s = true
     ∧ ∃ rendered, listener = Some rendered
         ∧ components rendered ≠ [] ∧ isSimulating rendered = false
         ∧ Shortcuts.afterSpace e listener s
           = (setSimulationResult None 0 (setIsSimulating true s),
              Some (simulationRequest rendered))).
Proof.
  unfold Shortcuts.afterSpace.
  destruct (Shortcuts.triggers e s); [|by left].
  destruct listener as [rendered|]; [|by left].
  destruct (handleTrigger_cases rendered s) as [->|(Hne & Hsim & ->)];
    [by left|].
  right. split; [done|]. exists rendered. by repeat split.
Qed.

(** The store after the Space branch differs from the one before it in
    [isSimulating] and [simulationResult] at most. *)
Lemma afterSpace_frame e listener s :
  let live := (Shortcuts.afterSpace e listener s).1 in
  components live = components s
  ∧ connections live = connections s
  ∧ selectedComponentId live = selectedComponentId s
  ∧ resultsHistory live = resultsHistory s
  ∧ goal live = goal s
  ∧ (simulationResult live = simulationResult s ∨ simulationResult live = None).
Proof.
  intros live. unfold live.
  destruct (afterSpace_cases e listener s) as [->|(_ & r & _ & _ & _ & ->)];
    simpl; repeat split; auto.
Qed.

Lemma handleKeyDown_after e listener s :
  let live := (Shortcuts.afterSpace e listener s).1 in
  Shortcuts.after (Shortcuts.handleKeyDown e listener s) = live
  ∨ (∃ sel, selectedComponentId s = Some sel ∧ sel ≠ ""
            ∧ (Shortcuts.key e = "Delete" ∨ Shortcuts.key e = "Backspace")
            ∧ Shortcuts.after (Shortcuts.handleKeyDown e listener s)
              = removeComponent sel live)
  ∨ (∃ sel, selectedComponentId s = Some sel ∧ sel ≠ ""
            ∧ Shortcuts.key e = "Escape"
            ∧ Shortcuts.after (Shortcuts.handleKeyDown e listener s)
              = setSelectedComponentId None live).
Proof.
  intros live. unfold Shortcuts.handleKeyDown. cbn [Shortcuts.after].
  fold live.
  destruct (selectedComponentId s) as [sel|] eqn:Hsel; simpl truthy.
  2:{ left. by rewrite !andb_false_r. }
  destruct (decide (sel = "")) as [->|Hne].
  { left. rewrite (bool_decide_eq_false_2 ("" ≠ "")) by (intros Hn; by apply Hn).
    by rewrite !andb_false_r. }
  rewrite (bool_decide_eq_true_2 (sel ≠ "")) by done. rewrite !andb_true_r.
  destruct (decide (Shortcuts.key e = "Delete")) as [Hd|Hd].
  { right. left. exists sel. rewrite Hd. simpl. eauto 6. }
  destruct (decide (Shortcuts.key e = "Backspace")) as [Hb|Hb].
  { right. left. exists sel. rewrite Hb. simpl. eauto 6. }
  rewrite (bool_decide_eq_false_2 (_ = "Delete")) by done.
  rewrite (bool_decide_eq_false_2 (_ = "Backspace")) by done. simpl.
  case_bool_decide as He; [|by left].
  right. right. exists sel. eauto.
Qed.

(** X9: Delete or Backspace with a component selected removes that
    component from the store as the Space branch left it, which is the
    store the handler was called on unless the key event also has the code
    of the space bar: afterwards the components and the connections are
    those [removeComponent] gives on the store the handler was called on,
    the component is not in the store, no connection has it as an end,
    nothing is selected, and the browser's default action is prevented. *)
Theorem handleKeyDown_delete e listener s sel :
  Shortcuts.key e = "Delete" ∨ Shortcuts.key e = "Backspace" →
  selectedComponentId s = Some sel → sel ≠ "" →
  let out := Shortcuts.handleKeyDown e listener s in
  Shortcuts.after out
  = removeComponent sel (Shortcuts.afterSpace e listener s).1
  ∧ (Shortcuts.code e ≠ "Space" → Shortcuts.after out = removeComponent sel s)
  ∧ components (Shortcuts.after out) = components (removeComponent sel s)
  ∧ connections (Shortcuts.after out) = connections (removeComponent sel s)
  ∧ (sel ∉ ids (Shortcuts.after out))
  ∧ (∀ p, p ∈ connections (Shortcuts.after out) → p.1 ≠ sel ∧ p.2 ≠ sel)
  ∧ selectedComponentId (Shortcuts.after out) = None
  ∧ Shortcuts.defaultPrevented out = true.
Proof.
  intros Hkey Hsel Hne out.
  set (live := (Shortcuts.afterSpace e listener s).1).
  destruct (afterSpace_frame e listener s) as (Hc & Hn & Hs & _).
  fold live in Hc, Hn, Hs.
  assert (Hafter : Shortcuts.after out = removeComponent sel live).
  { unfold out, Shortcuts.handleKeyDown. cbn [Shortcuts.after]. fold live.
    rewrite Hsel. simpl truthy.
    rewrite (bool_decide_eq_true_2 (sel ≠ "")) by done.
    destruct Hkey as [-> | ->]; simpl; reflexivity. }
  split; [done|]. rewrite Hafter. split; [|split; [|split; [|split; [|split; [|split]]]]].
  - intros Hcode. unfold live, Shortcuts.afterSpace.
    assert (Shortcuts.triggers e s = false) as ->; [|done].
    destruct (Shortcuts.triggers e s) eqn:Ht; [|done].
    apply triggers_true in Ht as [Hsp _]. by destruct Hcode.
  - simpl. by rewrite Hc.
  - simpl. by rewrite Hn.
  - rewrite ids_removeComponent. by intros [_ ?].
  - intros p Hp. apply connections_removeComponent in Hp. tauto.
  - simpl. rewrite Hs, Hsel. by rewrite bool_decide_eq_true_2.
  - unfold out, Shortcuts.handleKeyDown. cbn [Shortcuts.defaultPrevented].
    rewrite Hsel. simpl truthy. rewrite (bool_decide_eq_true_2 (sel ≠ "")) by done.
    destruct Hkey as [-> | ->]; simpl; by rewrite ?orb_true_r.
Qed.

Lemma handleKeyDown_delete_witness :
  let pos := {| x := 0%Q; y := 1%Q; z := 0%Q |} in
  let s := store (run [ AddComponent "lambda" pos 7; AddComponent "rds" pos 7;
                        AddConnection "lambda-7-1" "rds-7-2";
                        SetSelectedComponentId (Some "rds-7-2") ] initialLab) in
  let e := {| Shortcuts.code := "Delete"; Shortcuts.key := "Delete";
              Shortcuts.repeat := false; Shortcuts.ctrlKey := false;
              Shortcuts.shiftKey := false |} in
  Shortcuts.after (Shortcuts.handleKeyDown e (Some s) s)
  = removeComponent "rds-7-2" s
  ∧ ids (Shortcuts.after (Shortcuts.handleKeyDown e (Some s) s)) = ["lambda-7-1"]
  ∧ connections (Shortcuts.after (Shortcuts.handleKeyDown e (Some s) s)) = []
  ∧ selectedComponentId (Shortcuts.after (Shortcuts.handleKeyDown e (Some s) s))
    = None.
Proof.
  intros pos s e.
  destruct (handleKeyDown_delete e (Some s) s "rds-7-2" (or_introl eq_refl)
              eq_refl ltac:(discriminate))
    as (_ & Hafter & _ & _ & _ & _ & Hsel & _).
  assert (Ha := Hafter ltac:(discriminate)).
  split; [exact Ha|]. split; [by rewrite Ha|]. split; [by rewrite Ha|exact Hsel].
Defined.

Lemma handleKeyDown_dispatched e listener s :
  Shortcuts.dispatched (Shortcuts.handleKeyDown e listener s) ≠ [] →
  components s ≠ [] ∧ isSimulating s = false
  ∧ Shortcuts.code e = "Space" ∧ Shortcuts.repeat e = false.
Proof.
  unfold Shortcuts.handleKeyDown. cbn [Shortcuts.dispatched].
  destruct (Shortcuts.triggers e s) eqn:Ht; [|done].
  apply triggers_true in Ht. tauto.
Qed.

(** X10: the keyboard handler never adds to the graph and never breaks it.
    For every key event, every registered listener and every store: the
    components and the connections afterwards are subsequences of those
    before; connection endpoints that named components still do; the
    history and the goal are untouched; the result shown is kept or
    dropped, never replaced; and with nothing selected the components, the
    connections and the selection stay as they are.  The event is
    dispatched only for an unrepeated Space on a lab that has components
    and is not simulating.  When it is not dispatched nothing is sent, the
    result and the flag are untouched, and with nothing selected the store
    is left as it is.  A request is sent only by a registered listener
    whose rendered lab has components and is not simulating; it is the
    request of that rendered lab, and the store then has the flag raised
    and no result. *)
Theorem handleKeyDown_safe e listener s :
  let out := Shortcuts.handleKeyDown e listener s in
  components (Shortcuts.after out) `sublist_of` components s
  ∧ connections (Shortcuts.after out) `sublist_of` connections s
  ∧ (connections_resolve s → connections_resolve (Shortcuts.after out))
  ∧ resultsHistory (Shortcuts.after out) = resultsHistory s
  ∧ goal (Shortcuts.after out) = goal s
  ∧ (simulationResult (Shortcuts.after out) = simulationResult s
     ∨ simulationResult (Shortcuts.after out) = None)
  ∧ (truthy (selectedComponentId s) = false →
       components (Shortcuts.after out) = components s
       ∧ connections (Shortcuts.after out) = connections s
       ∧ selectedComponentId (Shortcuts.after out) = selectedComponentId s)
  ∧ (Shortcuts.dispatched out ≠ [] →
       components s ≠ [] ∧ isSimulating s = false
       ∧ Shortcuts.code e = "Space" ∧ Shortcuts.repeat e = false)
  ∧ (Shortcuts.dispatched out = [] →
       Shortcuts.sent out = None
       ∧ simulationResult (Shortcuts.after out) = simulationResult s
       ∧ isSimulating (Shortcuts.after out) = isSimulating s
       ∧ (truthy (selectedComponentId s) = false → Shortcuts.after out = s))
  ∧ (∀ req, Shortcuts.sent out = Some req →
       ∃ rendered, listener = Some rendered
         ∧ components rendered ≠ [] ∧ isSimulating rendered = false
         ∧ req = simulationRequest rendered
         ∧ isSimulating (Shortcuts.after out) = true
         ∧ simulationResult (Shortcuts.after out) = None).
Proof.
  intros out.
  set (live := (Shortcuts.afterSpace e listener s).1).
  destruct (afterSpace_frame e listener s) as (Hc & Hn & Hs & Hh & Hg & Hr).
  fold live in Hc, Hn, Hs, Hh, Hg, Hr.
  assert (Hsent : Shortcuts.sent out = (Shortcuts.afterSpace e listener s).2)
    by done.
  assert (Hdisp : Shortcuts.dispatched out
                  = if Shortcuts.triggers e s then ["triggerSimulation"] else [])
    by done.
  assert (Hres : connections_resolve s → connections_resolve live).
  { intros H p. unfold ids. rewrite Hc, Hn. apply H. }
  (* the store after the handler, field by field, from the store after the
     Space branch *)
  assert (Hout :
    components (Shortcuts.after out) `sublist_of` components live
    ∧ connections (Shortcuts.after out) `sublist_of` connections live
    ∧ (connections_resolve live → connections_resolve (Shortcuts.after out))
    ∧ resultsHistory (Shortcuts.after out) = resultsHistory live
    ∧ goal (Shortcuts.after out) = goal live
    ∧ simulationResult (Shortcuts.after out) = simulationResult live
    ∧ isSimulating (Shortcuts.after out) = isSimulating live
    ∧ (truthy (selectedComponentId s) = false → Shortcuts.after out = live)).
  { destruct (handleKeyDown_after e listener s)
      as [Ha|[(sel & Hsel & Hne & _ & Ha)|(sel & Hsel & Hne & _ & Ha)]];
      fold out live in Ha; rewrite Ha.
    - split; [reflexivity|]. split; [reflexivity|]. split; [done|].
      split; [done|]. split; [done|]. split; [done|]. by split.
    - split; [apply sublist_filter|]. split; [apply sublist_filter|].
      split; [apply removeComponent_resolve|]. split; [done|]. split; [done|].
      split; [done|]. split; [done|].
      rewrite Hsel. simpl. rewrite bool_decide_eq_true_2 by done. discriminate.
    - split; [reflexivity|]. split; [reflexivity|]. split; [done|].
      split; [done|]. split; [done|]. split; [done|]. split; [done|].
      rewrite Hsel. simpl. rewrite bool_decide_eq_true_2 by done. discriminate. }
  destruct Hout as (Oc & On & Ores & Oh & Og & Or & Oi & Osame).
  split; [by rewrite <- Hc|]. split; [by rewrite <- Hn|].
  split; [auto|]. split; [by rewrite Oh|]. split; [by rewrite Og|].
  split; [rewrite Or; exact Hr|].
  split.
  { intros Hf. rewrite (Osame Hf). by repeat split. }
  split; [apply handleKeyDown_dispatched|].
  split.
  - rewrite Hdisp, Hsent, Or, Oi. intros Hd.
    assert (Ht : Shortcuts.triggers e s = false)
      by (destruct (Shortcuts.triggers e s); [discriminate|done]).
    unfold live, Shortcuts.afterSpace in *. rewrite Ht in *. simpl.
    split; [done|]. split; [done|]. split; [done|]. exact Osame.
  - intros req. rewrite Hsent, Oi, Or. unfold live.
    destruct (afterSpace_cases e listener s)
      as [->|(_ & rendered & Hl & Hne & Hsim & ->)]; [done|].
    simpl. intros [= <-]. exists rendered. by repeat split.
Qed.

Lemma handleKeyDown_safe_witness :
  let pos := {| x := 0%Q; y := 1%Q; z := 0%Q |} in
  let s := store (addComponent "lambda" pos 7 initialLab) in
  let e := {| Shortcuts.code := "Space"; Shortcuts.key := " ";
              Shortcuts.repeat := false; Shortcuts.ctrlKey := false;
              Shortcuts.shiftKey := false |} in
  Shortcuts.after (Shortcuts.handleKeyDown e (Some initialStore) initialStore)
  = initialStore
  ∧ Shortcuts.sent (Shortcuts.handleKeyDown e (Some s) s)
    = Some (simulationRequest s)
  ∧ isSimulating (Shortcuts.after (Shortcuts.handleKeyDown e (Some s) s)) = true
  ∧ components (Shortcuts.after (Shortcuts.handleKeyDown e (Some s) s))
    = components s.
Proof.
  intros pos s e.
  destruct (handleKeyDown_safe e (Some initialStore) initialStore)
    as (_ & _ & _ & _ & _ & _ & _ & _ & Hquiet & _).
  destruct (Hquiet eq_refl) as (_ & _ & _ & Hsame).
  destruct (handleKeyDown_safe e (Some s) s)
    as (_ & _ & _ & _ & _ & _ & Hkeep & _ & _ & Hsent).
  destruct (Hsent (simulationRequest s) eq_refl)
    as (rendered & _ & _ & _ & _ & Hflag & _).
  destruct (Hkeep eq_refl) as (Hcomps & _ & _).
  split; [exact (Hsame eq_refl)|]. split; [reflexivity|].
  split; [exact Hflag|exact Hcomps].
Defined.

(** ** Restoring a past result *)

Lemma resultsHistory_set_Some res now s :
  resultsHistory (setSimulationResult (Some res) now s)
  = {| result := res; timestamp := now;
       componentCount := length (components s) |}
    :: take 4 (resultsHistory s).
Proof. reflexivity. Qed.

(** X11: Restoring the history item at index [i] shows its result again and
    records it once more as the newest entry, with the current clock reading
    and the current number of components; the older entries move down by
    one, so the restored item itself stays in the history, at index [i + 1],
    unless it was the last of five. *)
Theorem restoreResult_records_again item now s i :
  resultsHistory s !! i = Some item →
  simulationResult (restoreResult item now s) = Some (result item)
  ∧ resultsHistory (restoreResult item now s) !! 0%nat
    = Some {| result := result item; timestamp := now;
              componentCount := length (components s) |}
  ∧ ((i < 4)%nat → resultsHistory (restoreResult item now s) !! S i = Some item)
  ∧ ((4 ≤ i)%nat → resultsHistory (restoreResult item now s) !! S i = None)
  ∧ length (resultsHistory (restoreResult item now s))
    = (length (resultsHistory s) + 1) `min` 5.
Proof.
  intros Hi. unfold restoreResult. rewrite resultsHistory_set_Some.
  split; [done|]. split; [done|]. split; [|split].
  - intros Hlt. change ((?x :: ?l) !! S i) with (l !! i).
    by rewrite lookup_take_lt by lia.
  - intros Hge. change ((?x :: ?l) !! S i) with (l !! i).
    by rewrite lookup_take_ge by lia.
  - simpl. rewrite length_take. lia.
Qed.

Lemma restoreResult_records_again_witness :
  let r := {| estimated_latency_ms := 45%Q; scalability_score := 75;
              cost_index := 60; explanation := "ok" |} in
  let s := setSimulationResult (Some r) 100 initialStore in
  let item := {| result := r; timestamp := 100; componentCount := 0 |} in
  resultsHistory (restoreResult item 200 s)
  = [ {| result := r; timestamp := 200; componentCount := 0 |}; item ].
Proof.
  intros r s item.
  destruct (restoreResult_records_again item 200 s 0 eq_refl)
    as (_ & _ & _ & _ & Hlen).
  reflexivity.
Defined.

(** ** Connecting components by index or by generated id *)

Lemma addConnection_resolve fromId toId s :
  fromId ∈ ids s → toId ∈ ids s →
  connections_resolve s → connections_resolve (addConnection fromId toId s).
Proof.
  intros Hf Ht Hc p. unfold ids.
  destruct (addConnection_frame fromId toId s) as [-> _].
  rewrite addConnection_connections. case_bool_decide; [apply Hc|].
  rewrite elem_of_app, list_elem_of_singleton.
  intros [Hp| ->]; [by apply Hc|by split].
Qed.

Lemma addConnection_prefix fromId toId s :
  connections s `prefix_of` connections (addConnection fromId toId s).
Proof.
  rewrite addConnection_connections. case_bool_decide; [done|].
  by apply prefix_app_r.
Qed.

(** A loop whose every round leaves the store alone or adds a connection
    between two ids of the store's components. *)
Lemma connect_loop {B} (f : LabStore → B → LabStore) (s : LabStore) :
  (∀ cur b, f cur b = cur
            ∨ ∃ a c, a ∈ ids s ∧ c ∈ ids s ∧ f cur b = addConnection a c cur) →
  ∀ l cur,
    components cur = components s →
    selectedComponentId cur = selectedComponentId s →
    connections s `prefix_of` connections cur →
    (connections_resolve s → connections_resolve cur) →
    (∀ p, p ∈ connections cur →
          p ∈ connections s ∨ (p.1 ∈ ids s ∧ p.2 ∈ ids s)) →
    components (foldl f cur l) = components s
    ∧ selectedComponentId (foldl f cur l) = selectedComponentId s
    ∧ connections s `prefix_of` connections (foldl f cur l)
    ∧ (connections_resolve s → connections_resolve (foldl f cur l))
    ∧ (∀ p, p ∈ connections (foldl f cur l) →
            p ∈ connections s ∨ (p.1 ∈ ids s ∧ p.2 ∈ ids s)).
Proof.
  intros Hf l. induction l as [|b l IH]; intros cur Hc Hs Hp Hr Hn; [done|].
  simpl. destruct (Hf cur b) as [->|(a & c & Ha & Hcid & ->)]; [by apply IH|].
  destruct (addConnection_frame a c cur) as [Hc' Hs'].
  apply IH.
  - by rewrite Hc'.
  - by rewrite Hs'.
  - etrans; [exact Hp|apply addConnection_prefix].
  - intros Hres. apply addConnection_resolve; [| |by apply Hr].
    + unfold ids. by rewrite Hc.
    + unfold ids. by rewrite Hc.
  - intros p. rewrite addConnection_connections.
    case_bool_decide; [apply Hn|].
    rewrite elem_of_app, list_elem_of_singleton.
    intros [Hin| ->]; [by apply Hn|]. right. by split.
Qed.

Lemma connectIndexes_round s cur p :
  connectIndexes (components s) cur p = cur
  ∨ ∃ a c, a ∈ ids s ∧ c ∈ ids s
           ∧ connectIndexes (components s) cur p = addConnection a c cur.
Proof.
  unfold connectIndexes.
  destruct (id <$> components s !! p.1) as [a|] eqn:Ha; [|by left].
  destruct (id <$> components s !! p.2) as [c|] eqn:Hc; [|by left].
  destruct (truthy (Some a) && truthy (Some c)); [|by left].
  right. exists a, c.
  rewrite <- list_lookup_fmap in Ha, Hc.
  split; [by eapply list_elem_of_lookup_2|].
  split; [by eapply list_elem_of_lookup_2|done].
Qed.

Lemma connectTemplate_inv t s :
  components (connectTemplate t s) = components s
  ∧ selectedComponentId (connectTemplate t s) = selectedComponentId s
  ∧ connections s `prefix_of` connections (connectTemplate t s)
  ∧ (connections_resolve s → connections_resolve (connectTemplate t s))
  ∧ (∀ p, p ∈ connections (connectTemplate t s) →
          p ∈ connections s ∨ (p.1 ∈ ids s ∧ p.2 ∈ ids s)).
Proof.
  unfold connectTemplate.
  apply (connect_loop (connectIndexes (components s)) s); auto.
  intros cur p. apply connectIndexes_round.
Qed.

Lemma addConnection_rest fromId toId s :
  simulationResult (addConnection fromId toId s) = simulationResult s
  ∧ goal (addConnection fromId toId s) = goal s
  ∧ resultsHistory (addConnection fromId toId s) = resultsHistory s
  ∧ useCase (addConnection fromId toId s) = useCase s.
Proof. unfold addConnection. by destruct (some _ _). Qed.

Lemma connectIndexes_rest comps l : ∀ cur,
  simulationResult (foldl (connectIndexes comps) cur l) = simulationResult cur
  ∧ goal (foldl (connectIndexes comps) cur l) = goal cur
  ∧ resultsHistory (foldl (connectIndexes comps) cur l) = resultsHistory cur
  ∧ useCase (foldl (connectIndexes comps) cur l) = useCase cur.
Proof.
  induction l as [|p l IH]; intros cur; [done|].
  simpl. destruct (IH (connectIndexes comps cur p)) as (-> & -> & -> & ->).
  unfold connectIndexes.
  destruct (id <$> comps !! p.1); [|done].
  destruct (id <$> comps !! p.2); [|done].
  destruct (truthy _ && truthy _); [|done].
  apply addConnection_rest.
Qed.

Lemma connectTemplate_rest t s :
  simulationResult (connectTemplate t s) = simulationResult s
  ∧ goal (connectTemplate t s) = goal s
  ∧ resultsHistory (connectTemplate t s) = resultsHistory s
  ∧ useCase (connectTemplate t s) = useCase s.
Proof. apply connectIndexes_rest. Qed.

(** X14: The timer callback of a template, on any store: it touches neither the
    components nor the selection, only appends to the connections, every
    pair it appends joins two ids of components of the store, and so
    connection endpoints that named components before still do. *)
Theorem connectTemplate_safe t s :
  components (connectTemplate t s) = components s
  ∧ selectedComponentId (connectTemplate t s) = selectedComponentId s
  ∧ connections s `prefix_of` connections (connectTemplate t s)
  ∧ (connections_resolve s → connections_resolve (connectTemplate t s))
  ∧ (∀ p, p ∈ connections (connectTemplate t s) →
          p ∈ connections s ∨ (p.1 ∈ ids s ∧ p.2 ∈ ids s)).
Proof. apply connectTemplate_inv. Qed.

Lemma connectTemplate_safe_witness :
  let pos := {| x := 0%Q; y := 1%Q; z := 0%Q |} in
  let s := store (run [ AddComponent "cloudfront" pos 7;
                        AddComponent "s3" pos 7 ] initialLab) in
  let t := {| Template.name := "Static Website"; Template.description := "";
              Template.components := [];
              Template.connections := [(0, 1); (1, 5)]%nat |} in
  connections (connectTemplate t s) = [("cloudfront-7-1", "s3-7-2")]
  ∧ connections_resolve (connectTemplate t s).
Proof.
  intros pos s t.
  destruct (connectTemplate_safe t s) as (_ & _ & _ & Hres & _).
  split; [reflexivity|]. apply Hres.
  intros p Hp. by apply not_elem_of_nil in Hp.
Defined.

Lemma compMap_range (aiIds : list string) (comps : list InfrastructureComponent) k v :
  compMap aiIds comps !! k = Some v → v ∈ id <$> comps.
Proof.
  unfold compMap.
  assert (Hgen : ∀ (l : list (string * InfrastructureComponent)) (m : gmap string string),
            foldl (λ m p, <[p.1 := id p.2]> m) m l !! k = Some v →
            m !! k = Some v ∨ ∃ p, p ∈ l ∧ v = id p.2).
  { induction l as [|p l IH]; intros m Hm; [by left|].
    simpl in Hm. apply IH in Hm as [Hm|(q & Hq & ->)].
    - destruct (decide (p.1 = k)) as [<-|Hne].
      + rewrite lookup_insert_eq in Hm. injection Hm as <-.
        right. exists p. split; [left|done].
      + rewrite lookup_insert_ne in Hm by done. by left.
    - right. exists q. split; [by right|done]. }
  intros Hm. apply Hgen in Hm as [Hm|([a c] & Hp & ->)].
  - by rewrite lookup_empty in Hm.
  - simpl. apply list_elem_of_fmap_2. by apply elem_of_zip_r in Hp.
Qed.

Lemma compMap_unknown (aiIds : list string) (comps : list InfrastructureComponent) k :
  k ∉ aiIds → compMap aiIds comps !! k = None.
Proof.
  unfold compMap. intros Hk.
  assert (Hgen : ∀ (l : list (string * InfrastructureComponent)) (m : gmap string string),
            (∀ p, p ∈ l → p.1 ≠ k) → m !! k = None →
            foldl (λ m p, <[p.1 := id p.2]> m) m l !! k = None).
  { induction l as [|p l IH]; intros m Hl Hm; [done|].
    simpl. apply IH.
    - intros q Hq. apply Hl. by right.
    - rewrite lookup_insert_ne; [done|]. apply Hl. left. }
  apply Hgen; [|apply lookup_empty].
  intros [a c] Hp Heq. simpl in Heq. subst.
  by apply elem_of_zip_l in Hp.
Qed.

Lemma connectMapped_round aiIds s cur p :
  connectMapped (compMap aiIds (components s)) cur p = cur
  ∨ ∃ a c, a ∈ ids s ∧ c ∈ ids s
           ∧ connectMapped (compMap aiIds (components s)) cur p
             = addConnection a c cur.
Proof.
  unfold connectMapped.
  destruct (compMap aiIds (components s) !! p.1) as [a|] eqn:Ha; [|by left].
  destruct (compMap aiIds (components s) !! p.2) as [c|] eqn:Hc; [|by left].
  destruct (truthy (Some a) && truthy (Some c)); [|by left].
  right. exists a, c.
  split; [by eapply compMap_range|]. split; [by eapply compMap_range|done].
Qed.

(** X15: Connecting a generated topology, on any store and for any generated ids
    and connections: the components and the selection are untouched, the
    connections only grow at the end, every pair added joins two ids of
    components of the store, and a generated connection with an end that is
    not the id of a generated component adds nothing. *)
Theorem connectTopology_safe aiIds aiConnections s :
  components (connectTopology aiIds aiConnections s) = components s
  ∧ selectedComponentId (connectTopology aiIds aiConnections s)
    = selectedComponentId s
  ∧ connections s `prefix_of` connections (connectTopology aiIds aiConnections s)
  ∧ (connections_resolve s →
       connections_resolve (connectTopology aiIds aiConnections s))
  ∧ (∀ p, p ∈ connections (connectTopology aiIds aiConnections s) →
          p ∈ connections s ∨ (p.1 ∈ ids s ∧ p.2 ∈ ids s))
  ∧ (∀ cur p, (p.1 ∉ aiIds) ∨ (p.2 ∉ aiIds) →
       connectMapped (compMap aiIds (components s)) cur p = cur).
Proof.
  unfold connectTopology.
  destruct (connect_loop (connectMapped (compMap aiIds (components s))) s
              (connectMapped_round aiIds s) aiConnections s)
    as (H1 & H2 & H3 & H4 & H5); auto.
  repeat (split; [assumption|]).
  intros cur p Hp. unfold connectMapped.
  destruct Hp as [Hp|Hp]; rewrite (compMap_unknown _ _ _ Hp); [done|].
  by destruct (compMap aiIds (components s) !! p.1).
Qed.

Lemma connectTopology_safe_witness :
  let pos := {| x := 0%Q; y := 1%Q; z := 0%Q |} in
  let s := store (run [ AddComponent "lambda" pos 7;
                        AddComponent "rds" pos 7 ] initialLab) in
  connections (connectTopology ["fn"; "db"; "extra"]
                 [("fn", "db"); ("db", "cache"); ("extra", "fn")] s)
  = [("lambda-7-1", "rds-7-2")]
  ∧ connections_resolve
      (connectTopology ["fn"; "db"; "extra"]
         [("fn", "db"); ("db", "cache"); ("extra", "fn")] s).
Proof.
  intros pos s.
  destruct (connectTopology_safe ["fn"; "db"; "extra"]
              [("fn", "db"); ("db", "cache"); ("extra", "fn")] s)
    as (_ & _ & _ & Hres & _).
  split; [reflexivity|]. apply Hres.
  intros p Hp. by apply not_elem_of_nil in Hp.
Defined.

(** ** Applying a template *)

Lemma component_id_nonempty ty now k : component_id ty now k ≠ "".
Proof. unfold component_id. by destruct ty. Qed.

Lemma addTemplateComponents_store comps : ∀ clock l,
  componentCounter (addTemplateComponents comps clock l)
  = (componentCounter l + N.of_nat (length comps))%N
  ∧ store (addTemplateComponents comps clock l)
    = set_components
        (components (store l)
         ++ templateComponents comps clock (componentCounter l))
        (store l).
Proof.
  induction comps as [|[ty [tx tz]] comps IH]; intros clock l.
  - simpl. split; [lia|]. rewrite app_nil_r. by destruct (store l).
  - cbn [addTemplateComponents templateComponents].
    destruct (IH (λ i, clock (S i))
                 (addComponent ty {| x := tx; y := 0%Q; z := tz |}
                    (clock 0%nat) l)) as [Hc Hs].
    rewrite Hc, Hs. split; [simpl; lia|].
    simpl. by rewrite <- app_assoc.
Qed.

Lemma templateComponents_issued comps : ∀ clock n c,
  c ∈ templateComponents comps clock n →
  ∃ now k, id c = component_id (type c) now k ∧ (n < k)%N.
Proof.
  induction comps as [|[ty [tx tz]] comps IH]; intros clock n c Hc.
  - by apply not_elem_of_nil in Hc.
  - cbn [templateComponents] in Hc. apply elem_of_cons in Hc as [->|Hc].
    + exists (clock 0%nat), (n + 1)%N. split; [done|lia].
    + apply IH in Hc as (now & k & Hid & Hk). exists now, k. split; [done|lia].
Qed.

Lemma templateComponents_NoDup comps : ∀ clock n,
  NoDup (id <$> templateComponents comps clock n).
Proof.
  induction comps as [|[ty [tx tz]] comps IH]; intros clock n.
  - apply NoDup_nil_2.
  - cbn [templateComponents]. rewrite fmap_cons. apply NoDup_cons. split; [|apply IH].
    intros Hin. apply list_elem_of_fmap in Hin as (c & Hid & Hc).
    apply templateComponents_issued in Hc as (now & k & Hidc & Hk).
    simpl in Hid. rewrite Hidc in Hid.
    apply component_id_counter_inj in Hid. lia.
Qed.

Lemma templateComponents_types comps : ∀ clock n,
  type <$> templateComponents comps clock n = fst <$> comps.
Proof.
  induction comps as [|[ty [tx tz]] comps IH]; intros clock n; [done|].
  cbn [templateComponents]. rewrite !fmap_cons. f_equal. apply IH.
Qed.

Lemma templateComponents_length comps : ∀ clock n,
  length (templateComponents comps clock n) = length comps.
Proof.
  induction comps as [|[ty [tx tz]] comps IH]; intros clock n; [done|].
  cbn [templateComponents]. simpl. f_equal. apply IH.
Qed.

Lemma handleApplyTemplate_components t clock l :
  components (store (handleApplyTemplate t clock l))
  = templateComponents (Template.components t) clock (componentCounter l).
Proof.
  unfold handleApplyTemplate. cbn [on_store store].
  destruct (connectTemplate_inv t
              (store (addTemplateComponents (Template.components t) clock
                        (on_store clearLab l)))) as [-> _].
  destruct (addTemplateComponents_store (Template.components t) clock
              (on_store clearLab l)) as [_ ->].
  reflexivity.
Qed.

(** X16: Applying a template, whatever the lab held before: the components are
    replaced by one component per template component, of the template's
    types in the template's order, with pairwise distinct ids; the counter
    moves on by their number; nothing is selected and no result is shown;
    every connection joins two of the new components; the goal, the
    history and the use case are kept. *)
Theorem handleApplyTemplate_builds t clock l :
  let l' := handleApplyTemplate t clock l in
  components (store l')
  = templateComponents (Template.components t) clock (componentCounter l)
  ∧ type <$> components (store l') = fst <$> Template.components t
  ∧ NoDup (ids (store l'))
  ∧ componentCounter l'
    = (componentCounter l + N.of_nat (length (Template.components t)))%N
  ∧ connections_resolve (store l')
  ∧ selectedComponentId (store l') = None
  ∧ simulationResult (store l') = None
  ∧ goal (store l') = goal (store l)
  ∧ resultsHistory (store l') = resultsHistory (store l)
  ∧ useCase (store l') = useCase (store l).
Proof.
  intros l'. unfold l'.
  pose proof (handleApplyTemplate_components t clock l) as Hcomps.
  split; [exact Hcomps|].
  split; [rewrite Hcomps; apply templateComponents_types|].
  split; [unfold ids; rewrite Hcomps; apply templateComponents_NoDup|].
  unfold handleApplyTemplate. cbn [on_store store componentCounter].
  destruct (addTemplateComponents_store (Template.components t) clock
              (on_store clearLab l)) as [Hc Hs].
  split; [exact Hc|].
  set (s1 := store (addTemplateComponents (Template.components t) clock
                      (on_store clearLab l))) in *.
  destruct (connectTemplate_inv t s1) as (_ & Hsel & _ & Hres & _).
  split.
  { apply Hres. rewrite Hs. simpl. intros p Hp. by apply not_elem_of_nil in Hp. }
  split; [rewrite Hsel, Hs; reflexivity|].
  pose proof (connectTemplate_rest t s1) as (Hr & Hg & Hh & Hu).
  rewrite Hr, Hg, Hh, Hu, Hs. by repeat split.
Qed.

Lemma idPair_Some comps p q :
  idPair comps p = Some q ↔
  (id <$> comps) !! p.1 = Some q.1 ∧ (id <$> comps) !! p.2 = Some q.2.
Proof.
  unfold idPair. rewrite !list_lookup_fmap. destruct q as [a b]. simpl.
  destruct (id <$> comps !! p.1) as [a'|];
    destruct (id <$> comps !! p.2) as [b'|]; intuition congruence.
Qed.

Lemma idPair_in_range comps p :
  (p.1 < length comps)%nat → (p.2 < length comps)%nat →
  is_Some (idPair comps p).
Proof.
  intros H1 H2.
  destruct (lookup_lt_is_Some_2 (id <$> comps) p.1) as [a Ha];
    [by rewrite length_fmap|].
  destruct (lookup_lt_is_Some_2 (id <$> comps) p.2) as [b Hb];
    [by rewrite length_fmap|].
  exists (a, b). by apply idPair_Some.
Qed.

Lemma idPair_inj comps p q r :
  NoDup (id <$> comps) →
  idPair comps p = Some r → idPair comps q = Some r → p = q.
Proof.
  intros Hnd [Hp1 Hp2]%idPair_Some [Hq1 Hq2]%idPair_Some.
  destruct p as [p1 p2], q as [q1 q2]. simpl in *. f_equal.
  - by eapply NoDup_lookup.
  - by eapply NoDup_lookup.
Qed.

Lemma connectIndexes_exact comps :
  NoDup (id <$> comps) → (∀ c, c ∈ comps → id c ≠ "") →
  ∀ conns cur,
    NoDup conns →
    (∀ p, p ∈ conns → (p.1 < length comps)%nat ∧ (p.2 < length comps)%nat) →
    (∀ p q, p ∈ conns → idPair comps p = Some q → q ∉ connections cur) →
    connections (foldl (connectIndexes comps) cur conns)
    = connections cur ++ omap (idPair comps) conns.
Proof.
  intros Hnd Hne conns.
  induction conns as [|p conns IH]; intros cur Hconns Hrange Hfresh.
  { simpl. by rewrite app_nil_r. }
  apply NoDup_cons in Hconns as [Hp Hconns].
  destruct (Hrange p) as [H1 H2]; [left|].
  destruct (idPair_in_range comps p H1 H2) as [[a b] Hab].
  assert (Hstep : connectIndexes comps cur p = addConnection a b cur).
  { pose proof Hab as [Ha Hb]%idPair_Some. simpl in Ha, Hb.
    rewrite list_lookup_fmap in Ha, Hb.
    unfold connectIndexes. rewrite Ha, Hb.
    apply fmap_Some in Ha as (ca & Hca & ->).
    apply fmap_Some in Hb as (cb & Hcb & ->).
    simpl. rewrite !bool_decide_eq_true_2; [done|..].
    - apply Hne. by eapply list_elem_of_lookup_2.
    - apply Hne. by eapply list_elem_of_lookup_2. }
  assert (Hconn : connections (addConnection a b cur) = connections cur ++ [(a, b)]).
  { rewrite addConnection_connections. rewrite bool_decide_eq_false_2; [done|].
    eapply Hfresh; [left|done]. }
  simpl foldl. rewrite Hstep, IH; [| done | |].
  - rewrite Hconn. cbn [omap list_omap]. rewrite Hab. by rewrite <- app_assoc.
  - intros q Hq. apply Hrange. by right.
  - intros q r Hq Hr. rewrite Hconn. apply not_elem_of_app. split.
    + eapply Hfresh; [by right|done].
    + rewrite list_elem_of_singleton. intros ->.
      assert (q = p) as -> by (by eapply idPair_inj). done.
Qed.

Lemma omap_length_all {A B} (f : A → option B) (l : list A) :
  (∀ a, a ∈ l → is_Some (f a)) → length (omap f l) = length l.
Proof.
  induction l as [|a l IH]; intros Hall; [done|].
  cbn [omap list_omap]. destruct (Hall a) as [b ->]; [left|].
  simpl. f_equal. apply IH. intros c Hc. apply Hall. by right.
Qed.

(** X17: A template whose connections are pairwise distinct pairs of indexes of
    its components is built as written: after it is applied, whatever the
    lab held before, the connections are exactly the template's, in the
    template's order, each index replaced by the id of the component made
    for it. *)
Theorem handleApplyTemplate_connections t clock l :
  NoDup (Template.connections t) →
  (∀ p, p ∈ Template.connections t →
        (p.1 < length (Template.components t))%nat
        ∧ (p.2 < length (Template.components t))%nat) →
  let s' := store (handleApplyTemplate t clock l) in
  connections s' = omap (idPair (components s')) (Template.connections t)
  ∧ length (connections s') = length (Template.connections t)
  ∧ length (components s') = length (Template.components t).
Proof.
  intros Hnd Hrange s'. unfold s'.
  pose proof (handleApplyTemplate_components t clock l) as Hcomps.
  assert (Hlen : length (components (store (handleApplyTemplate t clock l)))
                 = length (Template.components t)).
  { rewrite Hcomps. apply templateComponents_length. }
  assert (Hconn : connections (store (handleApplyTemplate t clock l))
                  = omap (idPair (components (store (handleApplyTemplate t clock l))))
                         (Template.connections t)).
  { rewrite Hcomps. unfold handleApplyTemplate. cbn [on_store store].
    destruct (addTemplateComponents_store (Template.components t) clock
                (on_store clearLab l)) as [_ Hs].
    simpl in Hs. unfold connectTemplate. rewrite Hs.
    change (components (set_components ?c _)) with c.
    rewrite (connectIndexes_exact
               (templateComponents (Template.components t) clock
                  (componentCounter l))); [done|..].
    - apply templateComponents_NoDup.
    - intros c Hc. apply templateComponents_issued in Hc as (now & k & -> & _).
      apply component_id_nonempty.
    - done.
    - intros p Hp. rewrite templateComponents_length. by apply Hrange.
    - intros p q _ _. simpl. apply not_elem_of_nil. }
  split; [exact Hconn|]. split; [|exact Hlen].
  rewrite Hconn. apply omap_length_all. intros p Hp.
  apply idPair_in_range; rewrite Hlen; by apply Hrange.
Qed.

Lemma handleApplyTemplate_connections_witness :
  Forall (λ t, NoDup (Template.connections t)
               ∧ Forall (λ p, (p.1 < length (Template.components t))%nat
                              ∧ (p.2 < length (Template.components t))%nat)
                        (Template.connections t))
         templates
  ∧ ∃ t, templates !! 1%nat = Some t
         ∧ connections (store (handleApplyTemplate t (λ _, 7%Z) initialLab))
           = [ ("api_gateway-7-1", "lambda-7-2"); ("lambda-7-2", "dynamodb-7-3") ].
Proof.
  assert (Hall : Forall (λ t, NoDup (Template.connections t)
               ∧ Forall (λ p, (p.1 < length (Template.components t))%nat
                              ∧ (p.2 < length (Template.components t))%nat)
                        (Template.connections t)) templates)
    by compute_done.
  split; [exact Hall|].
  destruct (templates !! 1%nat) as [t|] eqn:Ht; [|discriminate].
  exists t. split; [done|].
  assert (Hin : t ∈ templates) by (by eapply list_elem_of_lookup_2).
  destruct (proj1 (Forall_forall _ _) Hall t Hin) as [Hnd Hrange].
  destruct (handleApplyTemplate_connections t (λ _, 7%Z) initialLab Hnd
              (proj1 (Forall_forall _ _) Hrange)) as (Hconn & _ & _).
  rewrite Hconn. injection Ht as <-. reflexivity.
Defined.

(** ** The scene's connection lines *)

Lemma find_Some {A} (P : A → Prop) `{∀ a, Decision (P a)} (l : list A) x :
  find P l = Some x → x ∈ l ∧ P x.
Proof.
  unfold find. intros Hf. apply fmap_Some in Hf as ([i y] & Hf & ->).
  apply list_find_Some in Hf as (Hi & HP & _). simpl.
  split; [by eapply list_elem_of_lookup_2|done].
Qed.

Lemma find_is_Some {A} (P : A → Prop) `{∀ a, Decision (P a)} (l : list A) x :
  x ∈ l → P x → is_Some (find P l).
Proof.
  intros Hx HP. unfold find.
  destruct (list_find_elem_of P l x Hx HP) as [iy ->]. by eexists.
Qed.

Lemma find_None {A} (P : A → Prop) `{∀ a, Decision (P a)} (l : list A) :
  (∀ x, x ∈ l → ¬ P x) → find P l = None.
Proof.
  intros Hall. unfold find.
  destruct (list_find P l) as [[i x]|] eqn:Hf; [|done].
  apply list_find_Some in Hf as (Hi & HP & _).
  destruct (Hall x); [by eapply list_elem_of_lookup_2|done].
Qed.

Lemma connectionLine_is_Some comps c :
  (∀ k, k ∈ comps → is_Some (position k)) →
  is_Some (connectionLine comps c)
  ↔ c.1 ∈ id <$> comps ∧ c.2 ∈ id <$> comps.
Proof.
  intros Hpos. unfold connectionLine. split.
  - destruct (find (λ k, id k = c.1) comps) as [fc|] eqn:Hf; [|by intros [? ?]].
    destruct (find (λ k, id k = c.2) comps) as [tc|] eqn:Ht; [|by intros [? ?]].
    intros _. apply find_Some in Hf as [Hf <-]. apply find_Some in Ht as [Ht <-].
    split; by apply list_elem_of_fmap_2.
  - intros [(fc & Hfid & Hfc)%list_elem_of_fmap (tc & Htid & Htc)%list_elem_of_fmap].
    destruct (find_is_Some (λ k, id k = c.1) comps fc Hfc (eq_sym Hfid)) as [fc' Hf].
    destruct (find_is_Some (λ k, id k = c.2) comps tc Htc (eq_sym Htid)) as [tc' Ht].
    rewrite Hf, Ht.
    apply find_Some in Hf as [Hf _]. apply find_Some in Ht as [Ht _].
    destruct (Hpos fc' Hf) as [a ->]. destruct (Hpos tc' Ht) as [b ->].
    by eexists.
Qed.

(** X18: When every component has a position, the scene draws a line for a
    connection exactly when both of its ends are ids of components; the
    line then runs between positions of components with those ids.  A
    dangling connection is not drawn. *)
Theorem connectionLine_drawn s c :
  (∀ k, k ∈ components s → is_Some (position k)) →
  (is_Some (connectionLine (components s) c) ↔ c.1 ∈ ids s ∧ c.2 ∈ ids s)
  ∧ (∀ line, connectionLine (components s) c = Some line →
       line_fromId line = c.1 ∧ line_toId line = c.2
       ∧ ∃ fromComp toComp,
           fromComp ∈ components s ∧ toComp ∈ components s
           ∧ id fromComp = c.1 ∧ id toComp = c.2
           ∧ position fromComp = Some (line_start line)
           ∧ position toComp = Some (line_end line)).
Proof.
  intros Hpos. split; [by apply connectionLine_is_Some|].
  intros line. unfold connectionLine.
  destruct (find (λ k, id k = c.1) (components s)) as [fc|] eqn:Hf; [|done].
  destruct (find (λ k, id k = c.2) (components s)) as [tc|] eqn:Ht; [|done].
  apply find_Some in Hf as [Hf Hfid]. apply find_Some in Ht as [Ht Htid].
  destruct (position fc) as [a|] eqn:Ha; [|done].
  destruct (position tc) as [b|] eqn:Hb; [|done].
  intros [= <-]. simpl. split; [done|]. split; [done|].
  exists fc, tc. by repeat split.
Qed.

Lemma connectionLine_drawn_witness :
  let pos := {| x := 0%Q; y := 1%Q; z := 0%Q |} in
  let s := store (run [ AddComponent "lambda" pos 7; AddComponent "rds" pos 7;
                        AddConnection "lambda-7-1" "rds-7-2";
                        AddConnection "lambda-7-1" "ghost" ] initialLab) in
  connectionLines s
  = [ Some {| line_start := pos; line_end := pos;
              line_fromId := "lambda-7-1"; line_toId := "rds-7-2" |};
      None ].
Proof.
  intros pos s.
  assert (Hpos : ∀ k, k ∈ components s → is_Some (position k)).
  { apply Forall_forall. simpl. repeat constructor; by eexists. }
  destruct (connectionLine_drawn s ("lambda-7-1", "ghost") Hpos) as [Hiff _].
  reflexivity.
Defined.

(** X19: In a store reached from the initial one by calls that pass ids of
    components, the scene draws every connection: there are as many lines
    as connections and none is missing. *)
Theorem connectionLines_all_drawn acts :
  well_called acts initialLab →
  let s := store (run acts initialLab) in
  length (connectionLines s) = length (connections s)
  ∧ Forall is_Some (connectionLines s).
Proof.
  intros Hw s. unfold connectionLines. split; [apply length_fmap|].
  apply Forall_fmap, Forall_forall. intros c Hc. simpl.
  destruct (resolve_run acts initialLab) as [Hres _]; [| |done|].
  { intros p Hp. by apply not_elem_of_nil in Hp. }
  { intros sel Hsel. discriminate. }
  apply connectionLine_is_Some.
  - intros k Hk. by apply (reachable_components acts k).
  - by apply Hres.
Qed.

Lemma connectionLines_all_drawn_witness :
  let pos := {| x := 0%Q; y := 1%Q; z := 0%Q |} in
  let acts := [ AddComponent "lambda" pos 7; AddComponent "rds" pos 7;
                HandleComponentClick "lambda-7-1";
                HandleComponentClick "rds-7-2" ] in
  well_called acts initialLab
  ∧ length (connectionLines (store (run acts initialLab))) = 1%nat
  ∧ Forall is_Some (connectionLines (store (run acts initialLab))).
Proof.
  intros pos acts.
  assert (Hw : well_called acts initialLab).
  { simpl. repeat split; compute_done. }
  destruct (connectionLines_all_drawn acts Hw) as [Hlen Hall].
  split; [exact Hw|]. split; [by rewrite Hlen|exact Hall].
Defined.

(** ** The latency colour, the tooltip and the dollar amount *)

(** X20: The colour of the latency figure and the caption under it always go
    together: green with "Excellent" below 50 ms, yellow with "Good" from
    50 ms to below 150 ms, red with "Needs optimization" from 150 ms on. *)
Theorem latency_colour_caption latency :
  ((latency < 50)%Q ∧ getLatencyColor latency = "text-green-400"
   ∧ latencyCaption latency = "Excellent")
  ∨ ((50 <= latency)%Q ∧ (latency < 150)%Q
     ∧ getLatencyColor latency = "text-yellow-400"
     ∧ latencyCaption latency = "Good")
  ∨ ((150 <= latency)%Q ∧ getLatencyColor latency = "text-red-400"
     ∧ latencyCaption latency = "Needs optimization").
Proof.
  unfold getLatencyColor, latencyCaption.
  destruct (Qlt_le_dec latency 50) as [H1|H1]; [by left|].
  destruct (Qlt_le_dec latency 150) as [H2|H2]; [right; by left|].
  right. by right.
Qed.

Lemma find_unique {A B} `{EqDecision B} (f : A → B) (l : list A) x :
  NoDup (f <$> l) → x ∈ l → find (λ a, f a = f x) l = Some x.
Proof.
  intros Hnd Hx.
  destruct (find_is_Some (λ a, f a = f x) l x Hx eq_refl) as [y Hy].
  rewrite Hy. f_equal.
  apply find_Some in Hy as [Hy Hfy].
  apply list_elem_of_lookup in Hx as [i Hi]. apply list_elem_of_lookup in Hy as [j Hj].
  assert (i = j) as ->.
  { apply (NoDup_lookup (f <$> l) i j (f x)); [done|..];
      rewrite list_lookup_fmap; [by rewrite Hi|rewrite Hj; simpl; by f_equal]. }
  congruence.
Qed.

(** X21: The tooltip finds every row of the palette by its kind, the row itself
    and no other; for a kind that is not in the table there is no
    tooltip. *)
Theorem tooltip_round_trip :
  (∀ c, c ∈ ComponentPalette.componentTypes →
        tooltip (ComponentPalette.type c) = Some c)
  ∧ (∀ k, (k ∉ ComponentPalette.kinds) → tooltip k = None).
Proof.
  split.
  - intros c Hc. unfold tooltip. apply find_unique; [|done].
    change (NoDup ComponentPalette.kinds). compute_done.
  - intros k Hk. unfold tooltip. apply find_None.
    intros c Hc Heq. apply Hk. rewrite <- Heq.
    unfold ComponentPalette.kinds. apply list_elem_of_In, in_map.
    by apply list_elem_of_In.
Qed.

Lemma tooltip_round_trip_witness :
  (ComponentPalette.label <$> tooltip "rds") = Some "RDS"
  ∧ tooltip "database" = None.
Proof.
  destruct tooltip_round_trip as [_ Hnone].
  split; [reflexivity|]. apply Hnone. compute_done.
Defined.

(** X22: The dollar amount never goes down when the cost index goes up, and for
    a cost index between 0 and 100 it lies between 0 and 250. *)
Theorem dollars_monotone c1 c2 :
  (c1 ≤ c2)%Z →
  (Math_round (inject_Z c1 * 2.5)%Q ≤ Math_round (inject_Z c2 * 2.5)%Q)%Z
  ∧ ((0 ≤ c1)%Z → (c2 ≤ 100)%Z →
       (0 ≤ Math_round (inject_Z c1 * 2.5)%Q)%Z
       ∧ (Math_round (inject_Z c2 * 2.5)%Q ≤ 250)%Z).
Proof.
  intros Hle. rewrite !Math_round_times. split.
  - apply Z.div_le_mono; lia.
  - intros H0 H100. split.
    + apply Z.div_pos; lia.
    + change 250%Z with ((5 * 100 + 1) `div` 2)%Z. apply Z.div_le_mono; lia.
Qed.

Lemma dollars_monotone_witness :
  (Math_round (inject_Z 10 * 2.5)%Q ≤ Math_round (inject_Z 60 * 2.5)%Q)%Z
  ∧ (Math_round (inject_Z 60 * 2.5)%Q ≤ 250)%Z.
Proof.
  destruct (dollars_monotone 10 60 ltac:(lia)) as [Hm Hr].
  split; [exact Hm|]. apply Hr; lia.
Defined.
